(** * nuxt-apollo runtime plugin: a shallow embedding of [src/runtime/plugin.ts]

    The plugin builds one GraphQL client per configured key.  This file
    embeds the parts of it that carry logic of their own:

    - [JS]      the string primitives the plugin calls ([split], [trim],
                [startsWith], the scheme regular expression);
    - [Auth]    the token resolver [getAuth] and the two places that use
                it, the auth link and the [connectionParams] supplier;
    - [Link]    the composition of the transport link and the route an
                operation takes through it;
    - [Plugin]  the loop over the configured clients: registry, default
                alias, cache transfer through the payload.

    Strings are sequences of code units.  Header values reach the plugin
    decoded as latin-1, so a code unit is modelled by [ascii] (0..255). *)

From Stdlib Require Import String Ascii.
From stdpp Require Import base option list gmap strings.

Local Open Scope string_scope.

(** ** JavaScript string primitives *)

Module JS.

(** [WhiteSpace] and [LineTerminator] code units below 256: TAB, LF, VT,
    FF, CR, SP and NBSP.  [String.prototype.trim] and the regular
    expression class [\s] use the same set. *)
Definition isWhiteSpace (c : ascii) : bool :=
  let n := nat_of_ascii c in
  (((9 <=? n) && (n <=? 13)) || (n =? 32) || (n =? 160))%nat.

(** The class [[a-zA-Z]]. *)
Definition isLetter (c : ascii) : bool :=
  let n := nat_of_ascii c in
  (((65 <=? n) && (n <=? 90)) || ((97 <=? n) && (n <=? 122)))%nat.

(** A string is truthy when it is not empty. *)
Definition truthy (s : string) : bool :=
  match s with EmptyString => false | String _ _ => true end.

(** [null], [undefined] and the empty string are falsy. *)
Definition truthy_opt (o : option string) : bool :=
  match o with Some s => truthy s | None => false end.

Fixpoint trimStart (s : string) : string :=
  match s with
  | EmptyString => EmptyString
  | String c r => if isWhiteSpace c then trimStart r else s
  end.

Fixpoint trimEnd (s : string) : string :=
  match s with
  | EmptyString => EmptyString
  | String c r =>
      match trimEnd r with
      | EmptyString => if isWhiteSpace c then EmptyString else String c EmptyString
      | r' => String c r'
      end
  end.

(** [s.trim()] *)
Definition trim (s : string) : string := trimEnd (trimStart s).

(** [s.startsWith(p)] *)
Fixpoint startsWith (p s : string) : bool :=
  match p, s with
  | EmptyString, _ => true
  | String a p', String b s' => Ascii.eqb a b && startsWith p' s'
  | String _ _, EmptyString => false
  end.

(** [s.split(sep)] for a separator of one code unit.  The result always
    has at least one element: [''.split(';')] is [['']]. *)
Fixpoint split (sep : ascii) (s : string) : list string :=
  match s with
  | EmptyString => [EmptyString]
  | String c r =>
      if Ascii.eqb c sep then EmptyString :: split sep r
      else match split sep r with
           | h :: t => String c h :: t
           | [] => [String c EmptyString]
           end
  end.

(** [l.join(sep)] *)
Fixpoint join (sep : ascii) (l : list string) : string :=
  match l with
  | [] => EmptyString
  | [x] => x
  | x :: r => x ++ String sep (join sep r)
  end.

(** [c] occurs in [s]. *)
Fixpoint occurs (c : ascii) (s : string) : bool :=
  match s with
  | EmptyString => false
  | String a r => Ascii.eqb a c || occurs c r
  end.

(** Every code unit of [s] satisfies [p]. *)
Fixpoint all (p : ascii -> bool) (s : string) : bool :=
  match s with
  | EmptyString => true
  | String a r => p a && all p r
  end.

(** The tail of [/^[a-zA-Z]+\s/] once one letter has been read: more
    letters, then one white space.  No letter is a white space, so the
    greedy [+] never has to give a letter back. *)
Fixpoint lettersThenSpace (s : string) : bool :=
  match s with
  | EmptyString => false
  | String c r =>
      if isWhiteSpace c then true
      else if isLetter c then lettersThenSpace r
      else false
  end.

(** [!!s.match(/^[a-zA-Z]+\s/)?.[0]]: the match, when there is one, has
    at least two code units and so is truthy. *)
Definition matchesScheme (s : string) : bool :=
  match s with
  | EmptyString => false
  | String c r => isLetter c && lettersThenSpace r
  end.

(** What [/^[a-zA-Z]+\s/] asks of a string, said without a program: one
    letter or more, then a white space, at the very start. *)
Definition LeadingScheme (s : string) : Prop :=
  exists w c r,
    s = w ++ String c r /\ w <> EmptyString /\
    all isLetter w = true /\ isWhiteSpace c = true.

End JS.

(** ** Execution context, configuration and host *)

(** [process.server] / [process.client]: exactly one of them holds. *)
Inductive ExecutionContext := Server | Client.

Definition process_server (c : ExecutionContext) : bool :=
  match c with Server => true | Client => false end.

Definition process_client (c : ExecutionContext) : bool :=
  match c with Server => false | Client => true end.

(** A call either returns or throws; an awaited promise either resolves or
    rejects. *)
Inductive outcome (A : Type) : Type :=
| Returned (a : A)
| Threw (e : string).
Arguments Returned {A} a.
Arguments Threw {A} e.

(** What [getAuth] and its callers touch outside the plugin. *)
Inductive Access :=
| HookCalled (client : string)        (* callHook('apollo:auth', ...) *)
| CookieRead (name : string)          (* useCookie(name).value *)
| HeaderScanned                       (* requestCookies.cookie.split(';')... *)
| LocalStorageRead (name : string)    (* localStorage.getItem(name) *)
| ParamsProducerCalled.               (* connectionParams() *)

(** A computation: the accesses it made, in order, and how it ended. *)
Definition Eff (A : Type) : Type := (list Access * outcome A)%type.

Definition ret {A} (a : A) : Eff A := ([], Returned a).

Definition bind {A B} (m : Eff A) (k : A -> Eff B) : Eff B :=
  match m with
  | (t, Returned a) => let '(t', r) := k a in ((t ++ t')%list, r)
  | (t, Threw e) => (t, Threw e)
  end.

Definition tell (a : Access) : Eff unit := ([a], Returned tt).

Definition lift {A} (o : outcome A) : Eff A := ([], o).

Notation "x <- m ;; k" := (bind m (fun x => k))
  (at level 100, m at next level, right associativity).
Notation "m ;;; k" := (bind m (fun _ => k))
  (at level 100, right associativity).

(** HTTP headers: a JavaScript object with string values. *)
Abbreviation Headers := (gmap string string).

(** A callback registered on ['apollo:auth']: it receives the client key and
    the token slot, and leaves the slot as it returns it. *)
Definition AuthHook : Type := string -> option string -> outcome (option string).

(** The host application as the plugin sees it.  A host is passed to every
    call so that what it holds (cookies, storage, hooks) may differ from one
    call to the next. *)
Record Host := {
  context : ExecutionContext;
  authHooks : list AuthHook;                    (* in registration order *)
  useCookie : string -> option string;          (* useCookie(name).value *)
  localStorage_getItem : string -> option string;
  request_cookie : option string                (* the request's cookie header *)
}.

(** The connection parameters of graphql-ws: an object, of which the plugin
    reads only [headers]. *)
Record ConnectionParams := {
  cp_headers : option Headers;
  cp_rest : gmap string string
}.

Definition noParams : ConnectionParams :=
  {| cp_headers := None; cp_rest := ∅ |}.

(** [wsLinkOptions.connectionParams]: an object or a function producing one
    (or [undefined]). *)
Inductive ConnectionParamsOption :=
| CPObject (p : ConnectionParams)
| CPFunction (f : Host -> outcome (option ConnectionParams)).

(** Modelled from the spec: the type [ClientConfig] of [../types], of which
    the plugin reads these fields.  [authType] is the auth scheme policy:
    [None] is JavaScript's [null] (raw token), otherwise the prefix. *)
Record ClientConfig := {
  httpEndpoint : string;
  browserHttpEndpoint : option string;
  wsEndpoint : option string;
  tokenStorage : string;
  tokenName : string;
  authHeader : string;
  authType : option string;
  websocketsOnly : bool;
  wsConnectionParams : option ConnectionParamsOption
}.

(** Modelled from the spec: the generated module [#apollo].  [clients] lists
    the entries in the order [Object.entries] yields them. *)
Record NuxtApolloConfig := {
  proxyCookies : bool;
  clientAwareness : bool;
  clients : list (string * ClientConfig)
}.

(** ** Token resolution and its two users *)

Module Auth.

(** [useRequestHeaders(['cookie'])]: an object holding the request's
    cookie header when it has a non-empty one, and nothing else. *)
Definition useRequestHeaders_cookie (h : Host) : Headers :=
  match request_cookie h with
  | Some c => if JS.truthy c then {[ "cookie" := c ]} else ∅
  | None => ∅
  end.

(** Line 22: [(process.server && NuxtApollo.proxyCookies &&
    useRequestHeaders(['cookie'])) || undefined]. *)
Definition requestCookies (na : NuxtApolloConfig) (h : Host) : option Headers :=
  if process_server (context h) && proxyCookies na
  then Some (useRequestHeaders_cookie h)
  else None.

(** [callHook] runs the callbacks one after the other on the same slot; a
    callback that throws ends the call. *)
Fixpoint runHooks (hooks : list AuthHook) (key : string) (slot : option string)
  : outcome (option string) :=
  match hooks with
  | [] => Returned slot
  | f :: rest =>
      match f key slot with
      | Returned slot' => runHooks rest key slot'
      | Threw e => Threw e
      end
  end.

Definition callHook_auth (h : Host) (key : string) : Eff (option string) :=
  tell (HookCalled key) ;;; lift (runHooks (authHooks h) key None).

(** Line 38: [cookie.split(';').find(c => c.trim().startsWith(`${name}=`))
    ?.split('=')?.[1]]. *)
Definition scanCookieHeader (name cookie : string) : option string :=
  match List.find (fun c => JS.startsWith (name ++ "=") (JS.trim c))
                  (JS.split ";" cookie) with
  | Some c => JS.split "=" c !! 1%nat
  | None => None
  end.

(** Lines 28-46 of [getAuth]: the value of [token.value] when the function
    goes on to build the header, [None] when it returns [undefined]. *)
Definition resolveToken (rc : option Headers) (h : Host) (key : string)
    (cfg : ClientConfig) : Eff (option string) :=
  token <- callHook_auth h key ;;
  if JS.truthy_opt token then ret token
  else
    token <-
      (if String.eqb (tokenStorage cfg) "cookie" then
         if process_client (context h) then
           tell (CookieRead (tokenName cfg)) ;;;
           let t := useCookie h (tokenName cfg) in
           ret (if JS.truthy_opt t then t else token)
         else
           match rc ≫= (fun o => o !! "cookie") with
           | Some cookie =>
               if JS.truthy cookie then
                 tell HeaderScanned ;;;
                 let t := scanCookieHeader (tokenName cfg) cookie in
                 ret (if JS.truthy_opt t then t else token)
               else ret token
           | None => ret token
           end
       else if process_client (context h)
               && String.eqb (tokenStorage cfg) "localStorage" then
         tell (LocalStorageRead (tokenName cfg)) ;;;
         ret (localStorage_getItem h (tokenName cfg))
       else ret token) ;;
    ret (if JS.truthy_opt token then token else None).

(** Lines 48-52 of [getAuth]. *)
Definition authHeaderValue (cfg : ClientConfig) (token : string) : string :=
  let authScheme := JS.matchesScheme token in
  match authScheme, authType cfg with
  | true, _ => token
  | false, None => token
  | false, Some ty => ty ++ " " ++ token
  end.

(** [getAuth]: [None] is the [undefined] of the bare [return]. *)
Definition getAuth (rc : option Headers) (h : Host) (key : string)
    (cfg : ClientConfig) : Eff (option string) :=
  token <- resolveToken rc h key cfg ;;
  match token with
  | None => ret None
  | Some t => ret (Some (authHeaderValue cfg t))
  end.

(** The context of an operation: [headers] and everything else. *)
Record Context := {
  ctx_headers : option Headers;
  ctx_rest : gmap string string
}.

(** [{ ...o }] for an object that may be [undefined]. *)
Definition spread (o : option Headers) : Headers := default ∅ o.

(** Lines 55-67, the function given to [setContext]: the object it
    returns, [None] for [undefined].  In an object literal a later key
    replaces an earlier one, and [∪] keeps its left argument's values. *)
Definition authSetter (rc : option Headers) (h : Host) (key : string)
    (cfg : ClientConfig) (prev : Context) : Eff (option Headers) :=
  auth <- getAuth rc h key cfg ;;
  if JS.truthy_opt auth then
    ret (Some (<[ authHeader cfg := default "" auth ]>
                 (spread rc ∪ spread (ctx_headers prev))))
  else ret None.

(** [setContext(setter)]: the operation's context after the link, which
    is [{ ...context, ...returned }]. *)
Definition authLink (rc : option Headers) (h : Host) (key : string)
    (cfg : ClientConfig) (prev : Context) : Eff Context :=
  r <- authSetter rc h key cfg prev ;;
  match r with
  | Some hs => ret {| ctx_headers := Some hs; ctx_rest := ctx_rest prev |}
  | None => ret prev
  end.

(** Lines 81-100, the [connectionParams] supplier handed to the
    restartable client, called on every connection attempt. *)
Definition connectionParams (rc : option Headers) (h : Host) (key : string)
    (cfg : ClientConfig) : Eff (option ConnectionParams) :=
  params <-
    match wsConnectionParams cfg with
    | None => ret (Some noParams)
    | Some (CPObject p) => ret (Some p)
    | Some (CPFunction f) => tell ParamsProducerCalled ;;; lift (f h)
    end ;;
  auth <- getAuth rc h key cfg ;;
  if JS.truthy_opt auth then
    let headers :=
      spread (params ≫= cp_headers) ∪ {[ authHeader cfg := default "" auth ]} in
    ret (Some {| cp_headers := Some headers;
                 cp_rest := default ∅ (cp_rest <$> params) |})
  else ret params.

End Auth.

(** ** Transport link *)

Module Link.

Inductive OperationType := Query | Mutation | Subscription.

(** A definition of a GraphQL document, as far as the router looks. *)
Inductive DefinitionNode :=
| OperationDefinition (operation : OperationType)
| FragmentDefinition.

(** [query.definitions] *)
Definition DocumentNode : Type := list DefinitionNode.

Definition isOperation (d : DefinitionNode) : bool :=
  match d with OperationDefinition _ => true | FragmentDefinition => false end.

(** [getMainDefinition] of [@apollo/client/utilities].  It checks the
    document first: one with more than one operation definition is
    ambiguous and makes it throw (a definition that is neither an operation
    nor a fragment would too; [DefinitionNode] has none).  Then it returns
    the first operation definition, failing that the first fragment
    definition, and throws on a document that has neither. *)
Definition getMainDefinition (q : DocumentNode) : outcome DefinitionNode :=
  if (1 <? length (List.filter isOperation q))%nat
  then Threw "Ambiguous GraphQL document"
  else
    match List.find isOperation q with
    | Some d => Returned d
    | None =>
        match q with
        | d :: _ => Returned d
        | [] => Threw "Expected a parsed GraphQL query"
        end
    end.

(** Lines 123-126, the test given to [split]. *)
Definition isSubscription (q : DocumentNode) : outcome bool :=
  match getMainDefinition q with
  | Returned (OperationDefinition Subscription) => Returned true
  | Returned _ => Returned false
  | Threw e => Threw e
  end.

(** The links the plugin creates.  The first two forward the operation,
    the last two send it. *)
Inductive Node :=
| ErrorLink                 (* onError(...) *)
| AuthLink                  (* setContext(...) *)
| HttpLink (uri : string)   (* createHttpLink({ uri }) *)
| WsLink (url : string).    (* new GraphQLWsLink(wsClient) *)

Definition terminating (n : Node) : bool :=
  match n with
  | HttpLink _ | WsLink _ => true
  | ErrorLink | AuthLink => false
  end.

Inductive ApolloLink :=
| Single (n : Node)
| Concat (first next : ApolloLink)
| Split (test : DocumentNode -> outcome bool) (left right : ApolloLink).

(** [ApolloLink.from(links)]: the links concatenated from the left. *)
Definition from (first : ApolloLink) (links : list ApolloLink) : ApolloLink :=
  foldl Concat first links.

Definition sent (path : list Node) : bool :=
  match last path with Some n => terminating n | None => false end.

(** The nodes an operation passes, outermost first.  [split] tests each
    operation as it arrives. *)
Fixpoint request (l : ApolloLink) (q : DocumentNode) : outcome (list Node) :=
  match l with
  | Single n => Returned [n]
  | Concat a b =>
      match request a q with
      | Returned p =>
          if sent p then Returned p
          else match request b q with
               | Returned p' => Returned (p ++ p')%list
               | Threw e => Threw e
               end
      | Threw e => Threw e
      end
  | Split test a b =>
      match test q with
      | Returned true => request a q
      | Returned false => request b q
      | Threw e => Threw e
      end
  end.

(** Line 71: [(process.client && browserHttpEndpoint) || httpEndpoint]. *)
Definition uri (c : ExecutionContext) (cfg : ClientConfig) : string :=
  match browserHttpEndpoint cfg with
  | Some b => if process_client c && JS.truthy b then b else httpEndpoint cfg
  | None => httpEndpoint cfg
  end.

(** Line 69. *)
Definition httpLink (c : ExecutionContext) (cfg : ClientConfig) : ApolloLink :=
  Concat (Single AuthLink) (Single (HttpLink (uri c cfg))).

(** Lines 75-109: the subscription link exists on a client context with a
    non-empty [wsEndpoint], and nowhere else. *)
Definition wsLink (c : ExecutionContext) (cfg : ClientConfig) : option ApolloLink :=
  match wsEndpoint cfg with
  | Some url =>
      if process_client c && JS.truthy url then Some (Single (WsLink url))
      else None
  | None => None
  end.

(** Lines 115-131. *)
Definition link (c : ExecutionContext) (cfg : ClientConfig) : ApolloLink :=
  from (Single ErrorLink)
    (match wsLink c cfg with
     | None => [httpLink c cfg]
     | Some ws =>
         if websocketsOnly cfg then [ws]
         else [Split isSubscription ws (httpLink c cfg)]
     end).

End Link.

(** ** The plugin: registry, default alias, cache transfer *)

(** Values the transferable payload can hold. *)
#[local] Set Warnings "-register-all".
Inductive json :=
| JNull
| JBool (b : bool)
| JNumber (n : Z)
| JString (s : string)
| JArray (items : list json)
| JObject (fields : list (string * json)).
#[local] Set Warnings "register-all".

Module Plugin.

(** JavaScript truthiness; a missing entry ([undefined]) is falsy too. *)
Definition truthy (v : json) : bool :=
  match v with
  | JNull => false
  | JBool b => b
  | JNumber n => negb (n =? 0)%Z
  | JString s => JS.truthy s
  | JArray _ | JObject _ => true
  end.

(** An [ApolloClient] with its cache.  Clients live in a heap and are
    named by their position there, so that two names of one client can be
    told from two clients. *)
Record ApolloClient := {
  client_link : Link.ApolloLink;
  client_cache : json;                    (* what cache.extract() returns *)
  client_name : option string;
  ssrMode : bool;
  ssrForceFetchDelay : option nat;
  devtools_name : string
}.

(** A callback registered on ['app:rendered']: it stores the extract of
    the cache of client [cb_client] under [cb_cacheKey]. *)
Record RenderedCallback := {
  cb_cacheKey : string;
  cb_client : nat
}.

Inductive Event :=
| DefaultAssigned (key : string)          (* line 150 *)
| CacheRestored (key : string).           (* line 160 *)

Record State := {
  registry : gmap string nat;             (* clients *)
  heap : list ApolloClient;
  payload_data : gmap string json;        (* nuxtApp.payload.data *)
  rendered_hooks : list RenderedCallback; (* in registration order *)
  apolloWsClients : gmap string string;   (* nuxtApp._apolloWsClients *)
  events : list Event                     (* oldest first *)
}.

Definition init (payload : gmap string json) : State :=
  {| registry := ∅; heap := []; payload_data := payload;
     rendered_hooks := []; apolloWsClients := ∅; events := [] |}.

(** Line 153. *)
Definition cacheKey (key : string) : string := "_apollo:" ++ key.

(** [Object.keys(NuxtApollo.clients)] *)
Definition keys (na : NuxtApolloConfig) : list string := (clients na).*1.

(** [NuxtApollo?.clients?.default]: a configured client is an object and
    so truthy. *)
Definition configuredDefault (na : NuxtApolloConfig) : bool :=
  bool_decide ("default" ∈ keys na).

Section Build.

(** [destr(JSON.stringify(v))], which belongs to two libraries; it may
    throw where [JSON.stringify] does. *)
Variable reparse : json -> outcome json.

(** [cache.restore(data)] on the cache just made, seen through what
    [cache.extract()] returns after it.  [InMemoryCache] belongs to the
    client library: what it keeps of [data], and whether it throws on it,
    is the library's to say. *)
Variable cacheRestore : json -> outcome json.

Variable na : NuxtApolloConfig.
Variable c : ExecutionContext.

Definition setCache (data : json) (cl : ApolloClient) : ApolloClient :=
  {| client_link := client_link cl; client_cache := data;
     client_name := client_name cl; ssrMode := ssrMode cl;
     ssrForceFetchDelay := ssrForceFetchDelay cl;
     devtools_name := devtools_name cl |}.

(** Lines 133-147: the cache is new and empty. *)
Definition newClient (key : string) (cfg : ClientConfig) : ApolloClient :=
  {| client_link := Link.link c cfg;
     client_cache := JObject [];
     client_name := if clientAwareness na then Some key else None;
     ssrMode := process_server c;
     ssrForceFetchDelay := if process_server c then None else Some 100%nat;
     devtools_name := key |}.

(** Lines 105-108. *)
Definition registerWs (key : string) (cfg : ClientConfig) (s : State) : State :=
  match Link.wsLink c cfg, wsEndpoint cfg with
  | Some _, Some url =>
      {| registry := registry s; heap := heap s;
         payload_data := payload_data s;
         rendered_hooks := rendered_hooks s;
         apolloWsClients := <[ key := url ]> (apolloWsClients s);
         events := events s |}
  | _, _ => s
  end.

(** Line 135: the new client goes on the heap and under its key. *)
Definition store (key : string) (cl : ApolloClient) (s : State) : State :=
  {| registry := <[ key := length (heap s) ]> (registry s);
     heap := heap s ++ [cl];
     payload_data := payload_data s;
     rendered_hooks := rendered_hooks s;
     apolloWsClients := apolloWsClients s;
     events := events s |}.

(** Lines 149-151. *)
Definition aliasDefault (key : string) (s : State) : State :=
  if negb (bool_decide (is_Some (registry s !! "default")))
     && negb (configuredDefault na)
     && bool_decide (Some key = head (keys na))
  then
    match registry s !! key with
    | Some r =>
        {| registry := <[ "default" := r ]> (registry s); heap := heap s;
           payload_data := payload_data s;
           rendered_hooks := rendered_hooks s;
           apolloWsClients := apolloWsClients s;
           events := events s ++ [DefaultAssigned key] |}
    | None => s
    end
  else s.

(** Lines 155-157, with no test of the execution context around them. *)
Definition hookRendered (key : string) (r : nat) (s : State) : State :=
  {| registry := registry s; heap := heap s;
     payload_data := payload_data s;
     rendered_hooks :=
       rendered_hooks s ++ [{| cb_cacheKey := cacheKey key; cb_client := r |}];
     apolloWsClients := apolloWsClients s;
     events := events s |}.

(** Lines 159-161. *)
Definition restore (key : string) (r : nat) (s : State) : outcome State :=
  match payload_data s !! cacheKey key with
  | Some v =>
      if process_client c && truthy v then
        match reparse v with
        | Returned data =>
            match cacheRestore data with
            | Returned extract =>
                Returned
                  {| registry := registry s;
                     heap := alter (setCache extract) r (heap s);
                     payload_data := payload_data s;
                     rendered_hooks := rendered_hooks s;
                     apolloWsClients := apolloWsClients s;
                     events := events s ++ [CacheRestored key] |}
            | Threw e => Threw e
            end
        | Threw e => Threw e
        end
      else Returned s
  | None => Returned s
  end.

(** The state a turn of the loop has built when it reaches line 159. *)
Definition built (key : string) (cfg : ClientConfig) (s : State) : State :=
  hookRendered key (length (heap s))
    (aliasDefault key (store key (newClient key cfg) (registerWs key cfg s))).

(** One turn of the loop of lines 26-162. *)
Definition iteration (s : State) (entry : string * ClientConfig) : outcome State :=
  let '(key, cfg) := entry in
  let r := length (heap s) in
  let s := registerWs key cfg s in
  let s := store key (newClient key cfg) s in
  let s := aliasDefault key s in
  let s := hookRendered key r s in
  restore key r s.

Fixpoint loop (s : State) (entries : list (string * ClientConfig)) : outcome State :=
  match entries with
  | [] => Returned s
  | e :: rest =>
      match iteration s e with
      | Returned s' => loop s' rest
      | Threw err => Threw err
      end
  end.

(** The plugin run on a payload. *)
Definition plugin (payload : gmap string json) : outcome State :=
  loop (init payload) (clients na).

End Build.

(** The keys line 150 aliased, oldest first. *)
Definition assignments (es : list Event) : list string :=
  omap (fun e => match e with
                 | DefaultAssigned k => Some k
                 | CacheRestored _ => None
                 end) es.

(** The keys whose cache line 160 restored, oldest first. *)
Definition restorations (es : list Event) : list string :=
  omap (fun e => match e with
                 | CacheRestored k => Some k
                 | DefaultAssigned _ => None
                 end) es.

(** Line 169: [clients?.default]. *)
Definition defaultClient (s : State) : option nat := registry s !! "default".

(** The host fires ['app:rendered']: every callback writes its cache's
    extract into the payload. *)
Definition fireRendered (s : State) : State :=
  foldl (fun s cb =>
           match heap s !! cb_client cb with
           | Some cl =>
               {| registry := registry s; heap := heap s;
                  payload_data :=
                    <[ cb_cacheKey cb := client_cache cl ]> (payload_data s);
                  rendered_hooks := rendered_hooks s;
                  apolloWsClients := apolloWsClients s;
                  events := events s |}
           | None => s
           end)
        s (rendered_hooks s).

End Plugin.

(** ** Sample configurations and hosts *)

Module Samples.

(** The configuration of the spec's scenarios. *)
Definition cfg : ClientConfig :=
  {| httpEndpoint := "https://api/graphql";
     browserHttpEndpoint := None;
     wsEndpoint := Some "wss://api/graphql";
     tokenStorage := "cookie";
     tokenName := "tok";
     authHeader := "Authorization";
     authType := Some "Bearer";
     websocketsOnly := false;
     wsConnectionParams := None |}.

Definition na (proxy : bool) : NuxtApolloConfig :=
  {| proxyCookies := proxy; clientAwareness := false;
     clients := [("main", cfg)] |}.

(** A server-side request carrying the cookie header [cookie]; no
    callback is registered on ['apollo:auth']. *)
Definition server (cookie : string) : Host :=
  {| context := Server;
     authHooks := [];
     useCookie := fun _ => None;
     localStorage_getItem := fun _ => None;
     request_cookie := Some cookie |}.

(** A browser whose cookie jar and local storage hold [stored] under
    ["tok"], with the callbacks [hooks] registered. *)
Definition browser (hooks : list AuthHook) (stored : option string) : Host :=
  {| context := Client;
     authHooks := hooks;
     useCookie := fun n => if String.eqb n "tok" then stored else None;
     localStorage_getItem := fun n => if String.eqb n "tok" then stored else None;
     request_cookie := None |}.


(** The sample configuration with local storage as the token store and a
    caller who put an [Authorization] header into the static connection
    parameters. *)
Definition cfgStale : ClientConfig :=
  {| httpEndpoint := "https://api/graphql";
     browserHttpEndpoint := None;
     wsEndpoint := Some "wss://api/graphql";
     tokenStorage := "localStorage";
     tokenName := "tok";
     authHeader := "Authorization";
     authType := Some "Bearer";
     websocketsOnly := false;
     wsConnectionParams :=
       Some (CPObject {| cp_headers := Some {[ "Authorization" := "Bearer stale" ]};
                         cp_rest := ∅ |}) |}.

(** A stand-in for [InMemoryCache.restore] in examples: of an object it
    keeps the entries whose value is an object, of anything else
    nothing. *)
Definition keepObjects (data : json) : outcome json :=
  Returned
    match data with
    | JObject fields =>
        JObject (List.filter (fun e => match e.2 with JObject _ => true | _ => false end)
                             fields)
    | _ => JObject []
    end.

(** Two clients, neither of them named ["default"]. *)
Definition two : NuxtApolloConfig :=
  {| proxyCookies := true; clientAwareness := false;
     clients := [("main", cfg); ("other", cfgStale)] |}.

End Samples.

(** * Properties *)

(** ** Facts about the string primitives *)

Module JSFacts.
Import JS.

Lemma split_nonempty sep s : split sep s <> [].
Proof.
  destruct s as [|c r]; simpl; [discriminate|].
  destruct (Ascii.eqb c sep); [discriminate|].
  destruct (split sep r); discriminate.
Qed.

Lemma split_without sep s : occurs sep s = false -> split sep s = [s].
Proof.
  induction s as [|c r IH]; simpl; [reflexivity|].
  intros H. apply orb_false_iff in H as [Hc Hr].
  rewrite Hc, (IH Hr). reflexivity.
Qed.

Lemma split_app sep a b :
  occurs sep a = false -> split sep (a ++ String sep b) = a :: split sep b.
Proof.
  induction a as [|c r IH]; simpl.
  - intros _. rewrite Ascii.eqb_refl. reflexivity.
  - intros H. apply orb_false_iff in H as [Hc Hr].
    rewrite Hc, (IH Hr). reflexivity.
Qed.

(** Splitting undoes joining, when no piece holds the separator. *)
Lemma split_join sep l :
  l <> [] -> Forall (fun e => occurs sep e = false) l ->
  split sep (join sep l) = l.
Proof.
  induction l as [|x r IH]; [congruence|].
  intros _ Hall. inversion Hall as [|? ? Hx Hr]; subst.
  destruct r as [|y r'].
  - simpl. apply split_without, Hx.
  - change (join sep (x :: y :: r')) with (x ++ String sep (join sep (y :: r'))).
    rewrite (split_app _ _ _ Hx), IH; [reflexivity|discriminate|exact Hr].
Qed.

Lemma whitespace_not_eq c : isWhiteSpace c = true -> Ascii.eqb c "=" = false.
Proof.
  destruct c as [[] [] [] [] [] [] [] []]; vm_compute; congruence.
Qed.

Lemma whitespace_without_eq ws : all isWhiteSpace ws = true -> occurs "=" ws = false.
Proof.
  induction ws as [|c r IH]; simpl; [reflexivity|].
  intros H. apply andb_true_iff in H as [Hc Hr].
  rewrite (whitespace_not_eq _ Hc), (IH Hr). reflexivity.
Qed.

Lemma occurs_app c a b : occurs c (a ++ b) = occurs c a || occurs c b.
Proof.
  induction a as [|x r IH]; simpl; [reflexivity|].
  rewrite IH, orb_assoc. reflexivity.
Qed.

Lemma append_assoc a b c : (a ++ b) ++ c = a ++ b ++ c.
Proof.
  induction a as [|x r IH]; [reflexivity|].
  change (String x ((r ++ b) ++ c) = String x (r ++ b ++ c)).
  rewrite IH. reflexivity.
Qed.

Lemma trimStart_whitespace ws s :
  all isWhiteSpace ws = true -> trimStart (ws ++ s) = trimStart s.
Proof.
  induction ws as [|c r IH]; simpl; [reflexivity|].
  intros H. apply andb_true_iff in H as [Hc Hr].
  rewrite Hc. exact (IH Hr).
Qed.

Lemma trimStart_length s : String.length (trimStart s) <= String.length s.
Proof.
  induction s as [|c r IH]; simpl; [lia|].
  destruct (isWhiteSpace c); simpl; lia.
Qed.

(** A string that [trimStart] leaves alone keeps its first code unit when
    something is put after it. *)
Lemma trimStart_fixed_app n s :
  trimStart n = n -> n <> EmptyString -> trimStart (n ++ s) = n ++ s.
Proof.
  destruct n as [|c r]; [congruence|]. simpl. intros H _.
  destruct (isWhiteSpace c); [|reflexivity].
  pose proof (trimStart_length r) as Hl. rewrite H in Hl. simpl in Hl. lia.
Qed.

Lemma startsWith_app p s : startsWith p (p ++ s) = true.
Proof.
  induction p as [|c r IH]; simpl; [reflexivity|].
  rewrite Ascii.eqb_refl. exact IH.
Qed.

(** [trimEnd] cannot eat into a prefix that ends in a code unit other
    than white space. *)
Lemma startsWith_trimEnd n d v :
  isWhiteSpace d = false ->
  startsWith (n ++ String d EmptyString) (trimEnd (n ++ String d v)) = true.
Proof.
  intros Hd. induction n as [|c r IH]; simpl.
  - destruct (trimEnd v); [rewrite Hd|]; simpl; rewrite Ascii.eqb_refl; reflexivity.
  - destruct (trimEnd (r ++ String d v)) as [|x y] eqn:E.
    + destruct r; discriminate IH.
    + simpl. rewrite Ascii.eqb_refl. exact IH.
Qed.

(** The entry [ws name=value] passes the test of [find]. *)
Lemma entry_matches ws name value :
  all isWhiteSpace ws = true -> trimStart name = name ->
  startsWith (name ++ "=") (trim (ws ++ name ++ "=" ++ value)) = true.
Proof.
  intros Hws Hn. unfold trim. rewrite (trimStart_whitespace _ _ Hws).
  destruct name as [|c r].
  - exact (startsWith_trimEnd EmptyString "=" value eq_refl).
  - rewrite trimStart_fixed_app by congruence.
    exact (startsWith_trimEnd (String c r) "=" value eq_refl).
Qed.

(** [split('=')[1]] of the entry, when neither name nor value holds an
    equals sign. *)
Lemma entry_value ws name value :
  all isWhiteSpace ws = true ->
  occurs "=" name = false -> occurs "=" value = false ->
  split "=" (ws ++ name ++ "=" ++ value) !! 1%nat = Some value.
Proof.
  intros Hws Hn Hv.
  replace (ws ++ name ++ "=" ++ value) with ((ws ++ name) ++ String "=" value).
  - rewrite split_app, (split_without _ _ Hv); [reflexivity|].
    rewrite occurs_app, (whitespace_without_eq _ Hws), Hn. reflexivity.
  - apply append_assoc.
Qed.

Lemma find_first {A} (f : A -> bool) before x after :
  Forall (fun e => f e = false) before -> f x = true ->
  List.find f (before ++ x :: after) = Some x.
Proof.
  induction 1 as [|e l He _ IH]; simpl; intros Hx.
  - rewrite Hx. reflexivity.
  - rewrite He. exact (IH Hx).
Qed.

Lemma letter_not_whitespace c : isLetter c = true -> isWhiteSpace c = false.
Proof.
  destruct c as [[] [] [] [] [] [] [] []]; vm_compute; congruence.
Qed.

Lemma app_cons a w s : String a w ++ s = String a (w ++ s).
Proof. reflexivity. Qed.

Lemma lettersThenSpace_spec s :
  lettersThenSpace s = true <->
  exists w c r, s = w ++ String c r /\ all isLetter w = true /\ isWhiteSpace c = true.
Proof.
  induction s as [|a s' IH]; simpl.
  - split; [discriminate|]. intros (w & c & r & E & _). destruct w; discriminate.
  - destruct (isWhiteSpace a) eqn:Ha.
    + split; [|reflexivity]. intros _. exists EmptyString, a, s'. auto.
    + destruct (isLetter a) eqn:La.
      * rewrite IH. split.
        -- intros (w & c & r & -> & Hw & Hc).
           exists (String a w), c, r. simpl. rewrite La. auto.
        -- intros (w & c & r & E & Hw & Hc). destruct w as [|b w'].
           ++ injection E as -> ->. congruence.
           ++ rewrite app_cons in E. injection E as -> ->.
              simpl in Hw. apply andb_true_iff in Hw as [_ Hw].
              exists w', c, r. auto.
      * split; [discriminate|]. intros (w & c & r & E & Hw & Hc).
        destruct w as [|b w'].
        -- injection E as -> ->. congruence.
        -- rewrite app_cons in E. injection E as -> ->.
           simpl in Hw. apply andb_true_iff in Hw as [Hb _]. congruence.
Qed.

(** The matcher decides the regular expression. *)
Lemma matchesScheme_spec s : matchesScheme s = true <-> LeadingScheme s.
Proof.
  unfold LeadingScheme. destruct s as [|a s']; simpl.
  - split; [discriminate|]. intros (w & c & r & E & _). destruct w; discriminate.
  - rewrite andb_true_iff, lettersThenSpace_spec. split.
    + intros (La & w & c & r & -> & Hw & Hc).
      exists (String a w), c, r. simpl. rewrite La. auto.
    + intros (w & c & r & E & Hne & Hw & Hc).
      destruct w as [|b w']; [congruence|].
      rewrite app_cons in E. injection E as -> ->.
      simpl in Hw. apply andb_true_iff in Hw as [Hb Hw].
      split; [exact Hb|]. exists w', c, r. auto.
Qed.

End JSFacts.

(** ** Token resolution *)

Module AuthFacts.
Import JS JSFacts Auth.

Lemma truthy_app_r a b : truthy b = true -> truthy (a ++ b) = true.
Proof. destruct a; [auto | reflexivity]. Qed.

Lemma join_truthy sep before e after :
  truthy e = true -> truthy (join sep (before ++ e :: after)) = true.
Proof.
  intros He. destruct before as [|b bs]; simpl.
  - destruct after; [exact He | apply truthy_app_r; reflexivity].
  - destruct (bs ++ e :: after)%list eqn:E.
    + destruct bs; discriminate E.
    + apply truthy_app_r. reflexivity.
Qed.

(** On a server context with cookie proxying on, [requestCookies] holds
    the request's cookie header. *)
Lemma requestCookies_server na h c :
  context h = Server -> proxyCookies na = true ->
  request_cookie h = Some c -> truthy c = true ->
  requestCookies na h = Some {[ "cookie" := c ]}.
Proof.
  intros Hc Hp Hr Ht. unfold requestCookies, useRequestHeaders_cookie.
  rewrite Hc, Hp, Hr, Ht. reflexivity.
Qed.

Lemma requestCookies_lookup na h c :
  context h = Server -> proxyCookies na = true ->
  request_cookie h = Some c -> truthy c = true ->
  requestCookies na h ≫= (fun o => o !! "cookie") = Some c.
Proof.
  intros Hc Hp Hr Ht. rewrite (requestCookies_server na h c Hc Hp Hr Ht).
  cbn. apply lookup_singleton_eq.
Qed.

(** Without proxying, or on a client context, there are none. *)
Lemma requestCookies_none na h :
  process_server (context h) && proxyCookies na = false ->
  requestCookies na h = None.
Proof. intros H. unfold requestCookies. rewrite H. reflexivity. Qed.


Lemma resolveToken_hook_threw rc h key cfg e :
  runHooks (authHooks h) key None = Threw e ->
  resolveToken rc h key cfg = ([HookCalled key], Threw e).
Proof.
  intros Hh. unfold resolveToken, callHook_auth, bind, tell, lift, ret.
  rewrite Hh. reflexivity.
Qed.

(** What [resolveToken] does once the hook has left the slot empty, one
    lemma for each way through lines 33-45. *)
Section HookLeftEmpty.
Variables (rc : option Headers) (h : Host) (key : string) (cfg : ClientConfig).
Variable slot : option string.
Hypothesis Hhook : runHooks (authHooks h) key None = Returned slot.
Hypothesis Hslot : truthy_opt slot = false.

Local Ltac enter :=
  unfold resolveToken, callHook_auth, bind, tell, lift, ret;
  rewrite Hhook, Hslot.


Lemma resolveToken_scan cookie :
  tokenStorage cfg = "cookie" -> context h = Server ->
  rc ≫= (fun o => o !! "cookie") = Some cookie -> truthy cookie = true ->
  resolveToken rc h key cfg =
    ([HookCalled key; HeaderScanned],
     Returned (if truthy_opt (scanCookieHeader (tokenName cfg) cookie)
               then scanCookieHeader (tokenName cfg) cookie else None)).
Proof.
  intros Hs%String.eqb_eq Hc Hrc Hk. enter.
  rewrite Hs, Hc. cbn [process_client]. rewrite Hrc, Hk. cbn.
  destruct (truthy_opt (scanCookieHeader (tokenName cfg) cookie)) eqn:E;
    rewrite ?E, ?Hslot; reflexivity.
Qed.

Lemma resolveToken_no_header :
  tokenStorage cfg = "cookie" -> context h = Server ->
  (forall cookie, rc ≫= (fun o => o !! "cookie") = Some cookie ->
                  truthy cookie = false) ->
  resolveToken rc h key cfg = ([HookCalled key], Returned None).
Proof.
  intros Hs%String.eqb_eq Hc Hrc. enter.
  rewrite Hs, Hc. cbn [process_client].
  destruct (rc ≫= _) as [cookie|]; [rewrite (Hrc cookie eq_refl)|];
    cbn; rewrite Hslot; reflexivity.
Qed.


Lemma resolveToken_no_store :
  tokenStorage cfg <> "cookie" ->
  context h = Server \/ tokenStorage cfg <> "localStorage" ->
  resolveToken rc h key cfg = ([HookCalled key], Returned None).
Proof.
  intros Hs%String.eqb_neq Hc. enter. rewrite Hs.
  destruct Hc as [-> | Hl%String.eqb_neq]; [|rewrite Hl, andb_false_r];
    cbn; rewrite Hslot; reflexivity.
Qed.

End HookLeftEmpty.

(** A resolved token is never the empty string. *)
Lemma resolveToken_truthy rc h key cfg t tok :
  resolveToken rc h key cfg = (t, Returned (Some tok)) -> truthy tok = true.
Proof.
  unfold resolveToken, callHook_auth, bind, tell, lift, ret.
  destruct (runHooks (authHooks h) key None) as [slot|e]; [|discriminate].
  destruct (truthy_opt slot) eqn:Hs; [intros [= _ ->]; exact Hs|].
  assert (Hfin : forall (tr : list Access) (o : option string),
             (tr, Returned (if truthy_opt o then o else None))
             = (t, Returned (Some tok)) -> truthy tok = true).
  { intros tr o. destruct (truthy_opt o) eqn:E; [|discriminate].
    intros [= _ ->]. exact E. }
  destruct (String.eqb (tokenStorage cfg) "cookie").
  - destruct (process_client (context h)).
    + cbn. destruct (truthy_opt (useCookie h (tokenName cfg))); eauto.
    + destruct (rc ≫= _) as [cookie|]; [destruct (truthy cookie)|]; cbn; eauto.
  - destruct (process_client (context h) && _); cbn; eauto.
Qed.

Lemma getAuth_of_token rc h key cfg t tok :
  resolveToken rc h key cfg = (t, Returned (Some tok)) ->
  getAuth rc h key cfg = (t, Returned (Some (authHeaderValue cfg tok))).
Proof.
  intros H. unfold getAuth, bind, ret. rewrite H. cbn. rewrite app_nil_r. reflexivity.
Qed.

Lemma getAuth_no_token rc h key cfg t :
  resolveToken rc h key cfg = (t, Returned None) ->
  getAuth rc h key cfg = (t, Returned None).
Proof.
  intros H. unfold getAuth, bind, ret. rewrite H. cbn. rewrite app_nil_r. reflexivity.
Qed.

Lemma getAuth_threw rc h key cfg t e :
  resolveToken rc h key cfg = (t, Threw e) ->
  getAuth rc h key cfg = (t, Threw e).
Proof. intros H. unfold getAuth, bind. rewrite H. reflexivity. Qed.

(** The header value is never empty either. *)
Lemma authHeaderValue_truthy cfg tok :
  truthy tok = true -> truthy (authHeaderValue cfg tok) = true.
Proof.
  intros H. unfold authHeaderValue.
  destruct (matchesScheme tok), (authType cfg) as [ty|]; auto.
  apply truthy_app_r. reflexivity.
Qed.

End AuthFacts.

Module TokenResolution.
Import JS JSFacts Auth AuthFacts.

(** C1 (amended).  On a server context with cookie proxying enabled, for a
    client with [tokenStorage = "cookie"] whose auth hook leaves the slot
    empty: when the first entry of the raw cookie header (entries are the
    pieces between [;]) that starts, once trimmed, with ["<tokenName>="]
    has a non-empty value without an equals sign, the resolved token is
    exactly that value, the text between ["<tokenName>="] and the next
    [;] or the end of the header, not decoded. *)
Theorem cookie_scan_extracts_value
    na h key cfg slot (before : list string) ws value (after : list string) :
  context h = Server ->
  proxyCookies na = true ->
  tokenStorage cfg = "cookie" ->
  runHooks (authHooks h) key None = Returned slot ->
  truthy_opt slot = false ->
  all isWhiteSpace ws = true ->
  trimStart (tokenName cfg) = tokenName cfg ->
  occurs "=" (tokenName cfg) = false ->
  occurs "=" value = false ->
  truthy value = true ->
  Forall (fun e => occurs ";" e = false)
         (before ++ (ws ++ tokenName cfg ++ "=" ++ value) :: after) ->
  Forall (fun e => startsWith (tokenName cfg ++ "=") (trim e) = false) before ->
  request_cookie h =
    Some (join ";" (before ++ (ws ++ tokenName cfg ++ "=" ++ value) :: after)) ->
  resolveToken (requestCookies na h) h key cfg =
    ([HookCalled key; HeaderScanned], Returned (Some value)).
Proof.
  intros Hc Hp Hs Hh Hslot Hws Hname Hn Hv Htv Hsemi Hfirst Hreq.
  set (entry := ws ++ tokenName cfg ++ "=" ++ value) in *.
  assert (Hentry : truthy entry = true).
  { unfold entry. do 2 apply truthy_app_r. reflexivity. }
  pose proof (join_truthy ";" before entry after Hentry) as Hj.
  rewrite (resolveToken_scan _ h key cfg slot Hh Hslot _ Hs Hc
             (requestCookies_lookup na h _ Hc Hp Hreq Hj) Hj).
  unfold scanCookieHeader.
  rewrite split_join by (try exact Hsemi; destruct before; discriminate).
  rewrite (find_first _ before entry after Hfirst)
    by (apply entry_matches; assumption).
  unfold entry. rewrite (entry_value ws _ value Hws Hn Hv).
  cbn [truthy_opt]. rewrite Htv. reflexivity.
Qed.

Lemma cookie_scan_extracts_value_witness :
  resolveToken (requestCookies (Samples.na true)
                  (Samples.server "other=x; tok=abc123; tok=later"))
               (Samples.server "other=x; tok=abc123; tok=later")
               "main" Samples.cfg
  = ([HookCalled "main"; HeaderScanned], Returned (Some "abc123")).
Proof.
  apply (cookie_scan_extracts_value (Samples.na true)
           (Samples.server "other=x; tok=abc123; tok=later") "main" Samples.cfg
           None ["other=x"] " " "abc123" [" tok=later"]);
    try reflexivity; repeat constructor.
Defined.

(** C1, as stated, fails where cookie proxying is off: the plugin never
    holds the request's cookie header, and no token is resolved from it. *)
Lemma cookie_scan_without_proxying :
  context (Samples.server "tok=abc123; other=x") = Server /\
  tokenStorage Samples.cfg = "cookie" /\
  request_cookie (Samples.server "tok=abc123; other=x") = Some "tok=abc123; other=x" /\
  resolveToken (requestCookies (Samples.na false)
                  (Samples.server "tok=abc123; other=x"))
               (Samples.server "tok=abc123; other=x") "main" Samples.cfg
  = ([HookCalled "main"], Returned None).
Proof. repeat split. Qed.

(** [split('=')[1]] ends the value at its first equals sign: of
    [tok=abc==] the scan keeps [abc]. *)
Lemma cookie_scan_stops_at_equals :
  resolveToken (requestCookies (Samples.na true) (Samples.server "tok=abc==; other=x"))
               (Samples.server "tok=abc==; other=x") "main" Samples.cfg
  = ([HookCalled "main"; HeaderScanned], Returned (Some "abc")).
Proof. reflexivity. Qed.

(** The two scenarios of the spec: a bare token takes the configured
    scheme, a token that brings its own scheme keeps it. *)
Example scenario_bare_token :
  getAuth (requestCookies (Samples.na true) (Samples.server "tok=abc123; other=x"))
          (Samples.server "tok=abc123; other=x") "main" Samples.cfg
  = ([HookCalled "main"; HeaderScanned], Returned (Some "Bearer abc123")).
Proof. reflexivity. Qed.

Example scenario_scheme_kept :
  getAuth (requestCookies (Samples.na true) (Samples.server "tok=Bearer xyz"))
          (Samples.server "tok=Bearer xyz") "main" Samples.cfg
  = ([HookCalled "main"; HeaderScanned], Returned (Some "Bearer xyz")).
Proof. reflexivity. Qed.

(** C2.  The header value of a resolved token: the token itself when it
    starts with a scheme word (letters, then a white space), whatever
    [authType] is; else the token itself under the raw-token policy
    ([authType] is [null]); else ["<authType> <token>"]. *)
Theorem header_value_derivation rc h key cfg t tok :
  resolveToken rc h key cfg = (t, Returned (Some tok)) ->
  exists v,
    getAuth rc h key cfg = (t, Returned (Some v)) /\
    (LeadingScheme tok -> v = tok) /\
    (~ LeadingScheme tok -> authType cfg = None -> v = tok) /\
    (~ LeadingScheme tok ->
     forall ty, authType cfg = Some ty -> v = ty ++ " " ++ tok).
Proof.
  intros H. exists (authHeaderValue cfg tok).
  split; [exact (getAuth_of_token _ _ _ _ _ _ H)|].
  unfold authHeaderValue. destruct (matchesScheme tok) eqn:M.
  - apply matchesScheme_spec in M.
    split; [reflexivity|]. split; intros N; contradiction.
  - assert (N : ~ LeadingScheme tok).
    { intros L. apply matchesScheme_spec in L. congruence. }
    split; [intros L; contradiction|].
    split; [intros _ -> | intros _ ty ->]; reflexivity.
Qed.

Lemma header_value_derivation_witness :
  exists v,
    getAuth None (Samples.browser [] (Some "abc123")) "main" Samples.cfg
    = ([HookCalled "main"; CookieRead "tok"], Returned (Some v)) /\
    (LeadingScheme "abc123" -> v = "abc123") /\
    (~ LeadingScheme "abc123" -> authType Samples.cfg = None -> v = "abc123") /\
    (~ LeadingScheme "abc123" ->
     forall ty, authType Samples.cfg = Some ty -> v = ty ++ " " ++ "abc123").
Proof.
  apply (header_value_derivation None (Samples.browser [] (Some "abc123"))
           "main" Samples.cfg [HookCalled "main"; CookieRead "tok"] "abc123").
  reflexivity.
Defined.



End TokenResolution.

(** ** The auth link *)

Module AuthDecoration.
Import JS JSFacts Auth AuthFacts.

Lemma authSetter_token rc h key cfg prev t tok :
  resolveToken rc h key cfg = (t, Returned (Some tok)) ->
  authSetter rc h key cfg prev =
    (t, Returned (Some (<[ authHeader cfg := authHeaderValue cfg tok ]>
                          (spread rc ∪ spread (ctx_headers prev))))).
Proof.
  intros H. unfold authSetter, bind, ret.
  rewrite (getAuth_of_token _ _ _ _ _ _ H). cbn [truthy_opt].
  rewrite (authHeaderValue_truthy cfg tok (resolveToken_truthy _ _ _ _ _ _ H)).
  rewrite app_nil_r. reflexivity.
Qed.

Lemma authSetter_no_token rc h key cfg prev t :
  resolveToken rc h key cfg = (t, Returned None) ->
  authSetter rc h key cfg prev = (t, Returned None).
Proof.
  intros H. unfold authSetter, bind, ret.
  rewrite (getAuth_no_token _ _ _ _ _ H). cbn. rewrite app_nil_r. reflexivity.
Qed.

Lemma authSetter_threw rc h key cfg prev t e :
  resolveToken rc h key cfg = (t, Threw e) ->
  authSetter rc h key cfg prev = (t, Threw e).
Proof.
  intros H. unfold authSetter, bind. rewrite (getAuth_threw _ _ _ _ _ _ H). reflexivity.
Qed.

Lemma authLink_no_token rc h key cfg prev t :
  resolveToken rc h key cfg = (t, Returned None) ->
  authLink rc h key cfg prev = (t, Returned prev).
Proof.
  intros H. unfold authLink, bind, ret.
  rewrite (authSetter_no_token _ _ _ _ prev _ H), app_nil_r. reflexivity.
Qed.

Lemma authLink_token rc h key cfg prev t tok :
  resolveToken rc h key cfg = (t, Returned (Some tok)) ->
  authLink rc h key cfg prev =
    (t, Returned {| ctx_headers :=
                      Some (<[ authHeader cfg := authHeaderValue cfg tok ]>
                              (spread rc ∪ spread (ctx_headers prev)));
                    ctx_rest := ctx_rest prev |}).
Proof.
  intros H. unfold authLink, bind, ret.
  rewrite (authSetter_token _ _ _ _ prev _ _ H), app_nil_r. reflexivity.
Qed.

(** C8.  When token resolution yields no credential, the auth link returns
    nothing to merge and the operation's context, its headers included,
    leaves the link as it came. *)
Theorem no_credential_no_header rc h key cfg prev t :
  resolveToken rc h key cfg = (t, Returned None) ->
  authSetter rc h key cfg prev = (t, Returned None) /\
  authLink rc h key cfg prev = (t, Returned prev).
Proof.
  intros H. split; [apply authSetter_no_token | apply authLink_no_token]; exact H.
Qed.

Lemma no_credential_no_header_witness :
  let prev := {| ctx_headers := Some {[ "x-caller" := "1" ]}; ctx_rest := ∅ |} in
  authSetter None (Samples.browser [] None) "main" Samples.cfg prev
    = ([HookCalled "main"; CookieRead "tok"], Returned None) /\
  authLink None (Samples.browser [] None) "main" Samples.cfg prev
    = ([HookCalled "main"; CookieRead "tok"], Returned prev).
Proof.
  intros prev.
  apply (no_credential_no_header None (Samples.browser [] None) "main" Samples.cfg
           prev [HookCalled "main"; CookieRead "tok"]).
  reflexivity.
Defined.

(** C10.  On a server context with cookie proxying enabled and a cookie
    header on the request, a run of the auth link that does not throw
    spreads the whole cookie header into the operation's headers exactly
    when token resolution yields a credential: the context that leaves the
    link then carries, as its headers, the caller's with the cookie header
    and the auth header written over them; with no credential the context
    leaves the link as it came, cookie header not added. *)
Theorem cookies_forwarded_iff_credential na h key cfg prev c t r :
  context h = Server ->
  proxyCookies na = true ->
  request_cookie h = Some c ->
  truthy c = true ->
  authSetter (requestCookies na h) h key cfg prev = (t, Returned r) ->
  ((exists tok, resolveToken (requestCookies na h) h key cfg
                = (t, Returned (Some tok))) <->
   (exists auth, r = Some (<[ authHeader cfg := auth ]>
                             ({[ "cookie" := c ]} ∪ spread (ctx_headers prev))))) /\
  (resolveToken (requestCookies na h) h key cfg = (t, Returned None) <-> r = None) /\
  authLink (requestCookies na h) h key cfg prev
    = (t, Returned match r with
                   | Some hs => {| ctx_headers := Some hs; ctx_rest := ctx_rest prev |}
                   | None => prev
                   end) /\
  (authHeader cfg <> "cookie" -> forall hs, r = Some hs -> hs !! "cookie" = Some c) /\
  (authHeader cfg <> "cookie" ->
   spread (ctx_headers prev) !! "cookie" = None ->
   forall out,
     authLink (requestCookies na h) h key cfg prev = (t, Returned out) ->
     (ctx_headers out ≫= (fun o => o !! "cookie") = Some c <->
      exists tok, resolveToken (requestCookies na h) h key cfg
                  = (t, Returned (Some tok)))).
Proof.
  intros Hc Hp Hr Hk. rewrite (requestCookies_server na h c Hc Hp Hr Hk).
  set (rc := Some {[ "cookie" := c ]}).
  destruct (resolveToken rc h key cfg) as [t0 [[tok|]|e]] eqn:R.
  - rewrite (authSetter_token _ _ _ _ prev _ _ R). intros [= <- <-].
    split; [split; intros _; eexists; reflexivity|].
    split; [split; discriminate|].
    split; [exact (authLink_token _ _ _ _ prev _ _ R)|].
    split.
    + intros Hne hs [= <-]. rewrite lookup_insert_ne by exact Hne.
      apply lookup_union_Some_l, lookup_singleton_eq.
    + intros Hne _ out. rewrite (authLink_token _ _ _ _ prev _ _ R). intros [= <-].
      cbn. rewrite lookup_insert_ne by exact Hne.
      rewrite (lookup_union_Some_l _ _ _ _ (lookup_singleton_eq _ _)).
      split; intros _; [eexists|]; reflexivity.
  - rewrite (authSetter_no_token _ _ _ _ prev _ R). intros [= <- <-].
    split; [split; [intros [tok [=]] | intros [auth [=]]]|].
    split; [split; reflexivity|].
    split; [exact (authLink_no_token _ _ _ _ prev _ R)|].
    split; [discriminate|].
    intros _ Hfree out. rewrite (authLink_no_token _ _ _ _ prev _ R). intros [= <-].
    split; [|intros [tok [=]]].
    intros Hcookie. unfold spread in Hfree.
    destruct (ctx_headers prev) as [hs|]; cbn in Hcookie, Hfree; congruence.
  - rewrite (authSetter_threw _ _ _ _ prev _ _ R). discriminate.
Qed.

Lemma cookies_forwarded_iff_credential_witness :
  authLink (requestCookies (Samples.na true) (Samples.server "tok=abc123; other=x"))
           (Samples.server "tok=abc123; other=x") "main" Samples.cfg
           {| ctx_headers := Some {[ "x-caller" := "1" ]}; ctx_rest := ∅ |}
  = ([HookCalled "main"; HeaderScanned],
     Returned {| ctx_headers :=
                   Some (<[ "Authorization" := "Bearer abc123" ]>
                           ({[ "cookie" := "tok=abc123; other=x" ]}
                              ∪ {[ "x-caller" := "1" ]}));
                 ctx_rest := ∅ |}).
Proof.
  exact (proj1 (proj2 (proj2
           (cookies_forwarded_iff_credential (Samples.na true)
              (Samples.server "tok=abc123; other=x") "main" Samples.cfg
              {| ctx_headers := Some {[ "x-caller" := "1" ]}; ctx_rest := ∅ |}
              "tok=abc123; other=x" [HookCalled "main"; HeaderScanned]
              (Some (<[ "Authorization" := "Bearer abc123" ]>
                       ({[ "cookie" := "tok=abc123; other=x" ]} ∪ {[ "x-caller" := "1" ]})))
              eq_refl eq_refl eq_refl eq_refl eq_refl)))).
Defined.

End AuthDecoration.

(** ** The connection parameters of the subscription transport *)

Module Subscription.
Import JS JSFacts Auth AuthFacts.

(** The static parameters the supplier starts from. *)
Lemma connectionParams_static rc h key cfg p t :
  wsConnectionParams cfg = Some (CPObject p) ->
  resolveToken rc h key cfg = (t, Returned None) ->
  connectionParams rc h key cfg = (t, Returned (Some p)).
Proof.
  intros Hp H. unfold connectionParams, bind, ret. rewrite Hp.
  rewrite (getAuth_no_token _ _ _ _ _ H). cbn [truthy_opt app].
  rewrite app_nil_r. reflexivity.
Qed.

(** A producer is called on every call of the supplier, with the host of
    that call. *)
Lemma connectionParams_produced rc h key cfg f p t :
  wsConnectionParams cfg = Some (CPFunction f) ->
  f h = Returned p ->
  resolveToken rc h key cfg = (t, Returned None) ->
  connectionParams rc h key cfg = (ParamsProducerCalled :: t, Returned p).
Proof.
  intros Hp Hf H. unfold connectionParams, bind, tell, lift, ret. rewrite Hp, Hf.
  rewrite (getAuth_no_token _ _ _ _ _ H). cbn [truthy_opt app].
  rewrite app_nil_r. reflexivity.
Qed.

(** With a credential, the headers of the result are the caller's, and the
    auth header where the caller has none of that name. *)
Lemma connectionParams_merged rc h key cfg p t tok :
  wsConnectionParams cfg = Some (CPObject p) ->
  resolveToken rc h key cfg = (t, Returned (Some tok)) ->
  connectionParams rc h key cfg =
    (t, Returned (Some {| cp_headers :=
                            Some (spread (cp_headers p)
                                    ∪ {[ authHeader cfg := authHeaderValue cfg tok ]});
                          cp_rest := cp_rest p |})).
Proof.
  intros Hp H. unfold connectionParams, bind, ret. rewrite Hp.
  rewrite (getAuth_of_token _ _ _ _ _ _ H). cbn [truthy_opt].
  rewrite (authHeaderValue_truthy cfg tok (resolveToken_truthy _ _ _ _ _ _ H)).
  cbn [app]. rewrite app_nil_r. reflexivity.
Qed.

Lemma connectionParams_fresh rc h key cfg p t tok hs :
  wsConnectionParams cfg = Some (CPObject p) ->
  resolveToken rc h key cfg = (t, Returned (Some tok)) ->
  spread (cp_headers p) !! authHeader cfg = None ->
  connectionParams rc h key cfg = (t, Returned (Some hs)) ->
  cp_headers hs ≫= (fun o => o !! authHeader cfg) = Some (authHeaderValue cfg tok).
Proof.
  intros Hp H Hfree. rewrite (connectionParams_merged _ _ _ _ _ _ _ Hp H).
  intros [= <-]. cbn. rewrite lookup_union_r by exact Hfree.
  apply lookup_singleton_eq.
Qed.

(** On a collision the caller's header stands and the resolved one is
    dropped. *)
Lemma connectionParams_collision rc h key cfg p t tok hs v :
  wsConnectionParams cfg = Some (CPObject p) ->
  resolveToken rc h key cfg = (t, Returned (Some tok)) ->
  spread (cp_headers p) !! authHeader cfg = Some v ->
  connectionParams rc h key cfg = (t, Returned (Some hs)) ->
  cp_headers hs ≫= (fun o => o !! authHeader cfg) = Some v.
Proof.
  intros Hp H Hv. rewrite (connectionParams_merged _ _ _ _ _ _ _ Hp H).
  intros [= <-]. cbn. apply lookup_union_Some_l, Hv.
Qed.

(** C5, at the failing input.  The caller's static connection parameters
    carry [Authorization: Bearer stale]; local storage holds the token
    [fresh], which [getAuth] resolves to [Bearer fresh]; the supplier
    returns the stale header. *)
Theorem connectionParams_keeps_stale_header :
  getAuth None (Samples.browser [] (Some "fresh")) "main" Samples.cfgStale
    = ([HookCalled "main"; LocalStorageRead "tok"], Returned (Some "Bearer fresh")) /\
  connectionParams None (Samples.browser [] (Some "fresh")) "main" Samples.cfgStale
    = ([HookCalled "main"; LocalStorageRead "tok"],
       Returned (Some {| cp_headers := Some {[ "Authorization" := "Bearer stale" ]};
                         cp_rest := ∅ |})).
Proof. split; reflexivity. Qed.

End Subscription.

(** ** Routing *)

Module Routing.
Import Link.

(** Wherever the subscription link exists, the context is a client
    context. *)
Lemma wsLink_client c cfg ws : wsLink c cfg = Some ws -> c = Client.
Proof.
  unfold wsLink. destruct (wsEndpoint cfg) as [url|]; [|discriminate].
  destruct c; [discriminate|reflexivity].
Qed.

(** A document with more than one operation definition is refused. *)
Lemma getMainDefinition_ambiguous q :
  (1 < length (List.filter isOperation q))%nat ->
  getMainDefinition q = Threw "Ambiguous GraphQL document".
Proof.
  intros H. unfold getMainDefinition.
  rewrite (proj2 (Nat.ltb_lt _ _) H). reflexivity.
Qed.

Lemma find_head_filter q :
  List.find isOperation q = head (List.filter isOperation q).
Proof.
  induction q as [|d q IH]; [reflexivity|]. cbn.
  destruct (isOperation d); [reflexivity|exact IH].
Qed.

(** The main definition is an operation exactly when the document holds
    that operation definition and no other. *)
Lemma getMainDefinition_operation q op :
  getMainDefinition q = Returned (OperationDefinition op) <->
  List.filter isOperation q = [OperationDefinition op].
Proof.
  unfold getMainDefinition. rewrite find_head_filter.
  destruct (List.filter isOperation q) as [|x [|y l]] eqn:F; cbn.
  - split; [|discriminate]. destruct q as [|d q']; [discriminate|].
    intros [= ->]. cbn in F. discriminate.
  - split; [intros [= ->]; reflexivity | intros [= ->]; reflexivity].
  - split; discriminate.
Qed.

(** Under the split such a document is sent nowhere: the link throws. *)
Lemma ambiguous_document_is_refused c cfg url q :
  wsLink c cfg = Some (Single (WsLink url)) ->
  websocketsOnly cfg = false ->
  (1 < length (List.filter isOperation q))%nat ->
  request (link c cfg) q = Threw "Ambiguous GraphQL document".
Proof.
  intros Hws Hw Hq. unfold link. rewrite Hws, Hw. cbn. unfold isSubscription.
  rewrite (getMainDefinition_ambiguous q Hq). reflexivity.
Qed.

Example two_operations_are_refused :
  request (link Client Samples.cfg)
          [OperationDefinition Subscription; OperationDefinition Query]
  = Threw "Ambiguous GraphQL document".
Proof. reflexivity. Qed.

(** C4.  With the subscription link in place and [websocketsOnly] off, the
    one link built for the client routes each operation by its main
    definition: a subscription goes to the subscription link, a query or
    a mutation through the auth link to the HTTP link. *)
Theorem split_routes_by_operation c cfg url q :
  wsLink c cfg = Some (Single (WsLink url)) ->
  websocketsOnly cfg = false ->
  (getMainDefinition q = Returned (OperationDefinition Subscription) ->
   request (link c cfg) q = Returned [ErrorLink; WsLink url]) /\
  (forall op, op <> Subscription ->
   getMainDefinition q = Returned (OperationDefinition op) ->
   request (link c cfg) q = Returned [ErrorLink; AuthLink; HttpLink (uri c cfg)]).
Proof.
  intros Hws Hw. unfold link. rewrite Hws, Hw. cbn. unfold isSubscription.
  split.
  - intros ->. reflexivity.
  - intros op Hop ->. destruct op; [reflexivity..|congruence].
Qed.

Lemma split_routes_by_operation_witness :
  request (link Client Samples.cfg) [FragmentDefinition; OperationDefinition Subscription]
    = Returned [ErrorLink; WsLink "wss://api/graphql"] /\
  request (link Client Samples.cfg) [OperationDefinition Mutation]
    = Returned [ErrorLink; AuthLink; HttpLink "https://api/graphql"].
Proof.
  destruct (split_routes_by_operation Client Samples.cfg "wss://api/graphql"
              [FragmentDefinition; OperationDefinition Subscription]
              eq_refl eq_refl) as [Hs _].
  destruct (split_routes_by_operation Client Samples.cfg "wss://api/graphql"
              [OperationDefinition Mutation] eq_refl eq_refl) as [_ Hq].
  split; [exact (Hs eq_refl) | exact (Hq Mutation ltac:(discriminate) eq_refl)].
Defined.

End Routing.

(** ** The loop over the configured clients *)

Module PluginFacts.
Import Plugin.

Lemma assignments_app es es' :
  assignments (es ++ es') = (assignments es ++ assignments es')%list.
Proof. apply omap_app. Qed.

Lemma restorations_app es es' :
  restorations (es ++ es') = (restorations es ++ restorations es')%list.
Proof. apply omap_app. Qed.

Section Steps.
Variable reparse : json -> outcome json.
Variable cacheRestore : json -> outcome json.
Variable na : NuxtApolloConfig.
Variable c : ExecutionContext.

(** [restore] touches the cache of one client and nothing else; it
    restores only from a truthy payload entry, on a client context. *)
Lemma restore_frame key r s s' :
  restore reparse cacheRestore c key r s = Returned s' ->
  registry s' = registry s /\
  payload_data s' = payload_data s /\
  rendered_hooks s' = rendered_hooks s /\
  length (heap s') = length (heap s) /\
  assignments (events s') = assignments (events s) /\
  (s' = s \/
   (restorations (events s') = (restorations (events s) ++ [key])%list /\
    c = Client /\
    exists v, payload_data s !! cacheKey key = Some v /\ truthy v = true)).
Proof.
  unfold restore.
  destruct (payload_data s !! cacheKey key) as [v|] eqn:Hv;
    [|intros [= <-]; auto 10].
  destruct (process_client c && truthy v) eqn:Hc; [|intros [= <-]; auto 10].
  apply andb_true_iff in Hc as [Hc Ht].
  destruct (reparse v) as [data|e]; [|discriminate].
  destruct (cacheRestore data) as [extract|e]; [|discriminate].
  intros [= <-]. cbn.
  rewrite length_alter, assignments_app, restorations_app. cbn.
  rewrite app_nil_r. repeat split; try reflexivity.
  right. split; [reflexivity|]. split; [destruct c; [discriminate|reflexivity]|].
  exists v. auto.
Qed.

(** A missing entry and a [null] entry are passed over, whatever
    [reparse] would do with them. *)
Lemma restore_nothing key r s :
  payload_data s !! cacheKey key = None \/
  payload_data s !! cacheKey key = Some JNull ->
  restore reparse cacheRestore c key r s = Returned s.
Proof.
  unfold restore. intros [-> | ->]; [reflexivity|].
  cbn. rewrite andb_false_r. reflexivity.
Qed.

Lemma aliasDefault_set key s :
  is_Some (registry s !! "default") -> aliasDefault na key s = s.
Proof.
  intros H. unfold aliasDefault.
  rewrite (bool_decide_eq_true_2 _ H). reflexivity.
Qed.

Lemma aliasDefault_first key r s :
  registry s !! "default" = None ->
  "default" ∉ keys na ->
  head (keys na) = Some key ->
  registry s !! key = Some r ->
  registry (aliasDefault na key s) = <[ "default" := r ]> (registry s) /\
  events (aliasDefault na key s) = (events s ++ [DefaultAssigned key])%list.
Proof.
  intros Hd Hn Hh Hk. unfold aliasDefault, configuredDefault.
  rewrite bool_decide_eq_false_2 by (rewrite Hd; apply is_Some_None).
  rewrite (bool_decide_eq_false_2 _ Hn).
  rewrite bool_decide_eq_true_2 by (symmetry; exact Hh).
  cbn. rewrite Hk. split; reflexivity.
Qed.

(** [aliasDefault] never touches anything but the alias and the log. *)
Lemma aliasDefault_frame key s :
  heap (aliasDefault na key s) = heap s /\
  payload_data (aliasDefault na key s) = payload_data s /\
  rendered_hooks (aliasDefault na key s) = rendered_hooks s /\
  restorations (events (aliasDefault na key s)) = restorations (events s).
Proof.
  unfold aliasDefault.
  destruct (_ && _); [|auto].
  destruct (registry s !! key); [|auto]. cbn.
  rewrite restorations_app. cbn. rewrite app_nil_r. auto.
Qed.

Lemma registerWs_frame key cfg s :
  registry (registerWs c key cfg s) = registry s /\
  heap (registerWs c key cfg s) = heap s /\
  payload_data (registerWs c key cfg s) = payload_data s /\
  rendered_hooks (registerWs c key cfg s) = rendered_hooks s /\
  events (registerWs c key cfg s) = events s.
Proof.
  unfold registerWs.
  destruct (Link.wsLink c cfg); [|auto]. destruct (wsEndpoint cfg); auto.
Qed.

Lemma iteration_built key cfg s :
  iteration reparse cacheRestore na c s (key, cfg) =
    restore reparse cacheRestore c key (length (heap s)) (built na c key cfg s).
Proof. reflexivity. Qed.

Lemma built_frame key cfg s :
  payload_data (built na c key cfg s) = payload_data s /\
  heap (built na c key cfg s) = (heap s ++ [newClient na c key cfg])%list /\
  rendered_hooks (built na c key cfg s) =
    (rendered_hooks s ++
       [{| cb_cacheKey := cacheKey key; cb_client := length (heap s) |}])%list /\
  restorations (events (built na c key cfg s)) = restorations (events s).
Proof.
  unfold built.
  destruct (registerWs_frame key cfg s) as (_ & Hh & Hp & Hr & He).
  set (s1 := store key (newClient na c key cfg) (registerWs c key cfg s)).
  destruct (aliasDefault_frame key s1) as (Ah & Ap & Ar & Ae).
  unfold hookRendered. cbn [hookRendered store registry heap payload_data rendered_hooks events].
  rewrite Ap, Ah, Ar, Ae. unfold s1, store. cbn [hookRendered store registry heap payload_data rendered_hooks events].
  rewrite Hp, Hh, Hr, He. auto.
Qed.

(** A turn of the loop on a key other than ["default"], once the alias
    is set: the key is bound, the alias and the log of aliasings
    stay. *)
Lemma built_later key cfg s :
  key <> "default" ->
  is_Some (registry s !! "default") ->
  registry (built na c key cfg s) = <[ key := length (heap s) ]> (registry s) /\
  assignments (events (built na c key cfg s)) = assignments (events s).
Proof.
  intros Hk Hd. unfold built.
  destruct (registerWs_frame key cfg s) as (Hg & Hh & _ & _ & He).
  set (s1 := store key (newClient na c key cfg) (registerWs c key cfg s)).
  assert (Hs1 : is_Some (registry s1 !! "default")).
  { unfold s1, store. cbn [hookRendered store registry heap payload_data rendered_hooks events].
    rewrite lookup_insert_ne, Hg by exact Hk. exact Hd. }
  unfold hookRendered. cbn [hookRendered store registry heap payload_data rendered_hooks events].
  rewrite (aliasDefault_set key s1 Hs1). unfold s1, store. cbn [hookRendered store registry heap payload_data rendered_hooks events].
  rewrite Hg, Hh, He. auto.
Qed.

(** The first turn of the loop, on a fresh state. *)
Lemma built_first key cfg payload :
  "default" ∉ keys na ->
  head (keys na) = Some key ->
  registry (built na c key cfg (init payload))
    = <[ "default" := 0%nat ]> (<[ key := 0%nat ]> ∅) /\
  assignments (events (built na c key cfg (init payload))) = [key].
Proof.
  intros Hn Hh. unfold built.
  set (s1 := store key (newClient na c key cfg) (registerWs c key cfg (init payload))).
  destruct (registerWs_frame key cfg (init payload)) as (Hg & Hp & _ & _ & He).
  assert (Hk : key <> "default").
  { intros ->. apply Hn. destruct (keys na); [discriminate|].
    injection Hh as ->. apply list_elem_of_here. }
  assert (Hreg : registry s1 = <[ key := 0%nat ]> ∅).
  { unfold s1, store. cbn [hookRendered store registry heap payload_data rendered_hooks events]. rewrite Hg, Hp. reflexivity. }
  destruct (aliasDefault_first key 0%nat s1) as [Ar Ae]; auto.
  - rewrite Hreg, lookup_insert_ne by exact Hk. apply lookup_empty.
  - rewrite Hreg. apply lookup_insert_eq.
  - unfold hookRendered. cbn [hookRendered store registry heap payload_data rendered_hooks events].
    rewrite Ar, Ae, Hreg. split; [reflexivity|].
    unfold s1, store. cbn [hookRendered store registry heap payload_data rendered_hooks events]. rewrite He. reflexivity.
Qed.

Lemma loop_cons s e rest s' :
  loop reparse cacheRestore na c s (e :: rest) = Returned s' ->
  exists s1, iteration reparse cacheRestore na c s e = Returned s1 /\
             loop reparse cacheRestore na c s1 rest = Returned s'.
Proof.
  cbn [loop]. destruct (iteration reparse cacheRestore na c s e) as [s1|err]; [|discriminate].
  intros H. exists s1. auto.
Qed.

(** Every turn registers one callback and allocates one client; the
    payload is only read. *)
Lemma loop_hooks rest : forall s s',
  loop reparse cacheRestore na c s rest = Returned s' ->
  payload_data s' = payload_data s /\
  length (heap s') = (length (heap s) + length rest)%nat /\
  rendered_hooks s' =
    (rendered_hooks s ++
       imap (fun i k => {| cb_cacheKey := cacheKey k;
                           cb_client := (length (heap s) + i)%nat |})
            rest.*1)%list.
Proof.
  induction rest as [|[key cfg] rest IH]; intros s s'.
  - intros [= <-]. cbn. rewrite app_nil_r. auto with lia.
  - intros (s1 & Hit & Hl)%loop_cons. rewrite iteration_built in Hit.
    destruct (restore_frame _ _ _ _ Hit) as (_ & Hp & Hr & Hh & _).
    destruct (built_frame key cfg s) as (Bp & Bh & Br & _).
    destruct (IH _ _ Hl) as (Ip & Ih & Ir).
    rewrite Ip, Hp, Bp, Ih, Ir, Hh, Hr, Br, Bh, length_app. cbn.
    rewrite <- app_assoc. cbn. rewrite Nat.add_0_r.
    repeat split; [lia|]. do 2 f_equal.
    apply imap_ext. intros i k _. cbn. f_equal. lia.
Qed.

(** Once the alias is set, no later turn on another key moves it. *)
Lemma loop_alias k0 rest : forall s s',
  Forall (fun e => e.1 <> k0 /\ e.1 <> "default") rest ->
  is_Some (registry s !! "default") ->
  registry s !! "default" = registry s !! k0 ->
  loop reparse cacheRestore na c s rest = Returned s' ->
  is_Some (registry s' !! "default") /\
  registry s' !! "default" = registry s' !! k0 /\
  assignments (events s') = assignments (events s).
Proof.
  induction rest as [|[key cfg] rest IH]; intros s s' Hall Hd Heq.
  - intros [= <-]. auto.
  - intros (s1 & Hit & Hl)%loop_cons. rewrite iteration_built in Hit.
    inversion Hall as [|? ? [Hk0 Hkd] Hall']; subst. cbn in Hk0, Hkd.
    destruct (restore_frame _ _ _ _ Hit) as (Hg & _ & _ & _ & Ha & _).
    destruct (built_later key cfg s Hkd Hd) as [Bg Ba].
    assert (Hd1 : registry s1 !! "default" = registry s !! "default").
    { rewrite Hg, Bg. apply lookup_insert_ne. exact Hkd. }
    assert (Hk1 : registry s1 !! k0 = registry s !! k0).
    { rewrite Hg, Bg. apply lookup_insert_ne. exact Hk0. }
    destruct (IH s1 s' Hall') as (Id & Ie & Ia); auto.
    + rewrite Hd1. exact Hd.
    + congruence.
    + rewrite Ia, Ha, Ba. auto.
Qed.

(** A cache is restored only for a configured key with a truthy payload
    entry, and only on a client context. *)
Lemma loop_restorations rest : forall s s' key,
  loop reparse cacheRestore na c s rest = Returned s' ->
  key ∈ restorations (events s') ->
  key ∈ restorations (events s) \/
  (key ∈ rest.*1 /\ c = Client /\
   exists v, payload_data s !! cacheKey key = Some v /\ truthy v = true).
Proof.
  induction rest as [|[k cfg] rest IH]; intros s s' key.
  - intros [= <-]. auto.
  - intros (s1 & Hit & Hl)%loop_cons Hin. rewrite iteration_built in Hit.
    destruct (restore_frame _ _ _ _ Hit) as (_ & Hp & _ & _ & _ & Hr).
    destruct (built_frame k cfg s) as (Bp & _ & _ & Be).
    rewrite Bp in Hp, Hr. rewrite Be in Hr.
    destruct (IH _ _ _ Hl Hin) as [Hold | (Hk & Hc & v & Hv & Ht)].
    + destruct Hr as [-> | (Hr & Hc & v & Hv & Ht)].
      * left. rewrite <- Be. exact Hold.
      * rewrite Hr in Hold. apply elem_of_app in Hold as [Hold | ->%list_elem_of_singleton].
        -- left. exact Hold.
        -- right. split; [apply list_elem_of_here|]. split; [exact Hc|]. eauto.
    + right. split; [apply list_elem_of_further, Hk|]. split; [exact Hc|].
      exists v. rewrite <- Hp. auto.
Qed.

(** With nothing to restore the loop runs to its end and leaves every
    cache as it was made. *)
Lemma loop_nothing rest : forall s,
  (forall key, key ∈ rest.*1 ->
     payload_data s !! cacheKey key = None \/
     payload_data s !! cacheKey key = Some JNull) ->
  exists s', loop reparse cacheRestore na c s rest = Returned s' /\
    restorations (events s') = restorations (events s) /\
    (Forall (fun cl => client_cache cl = JObject []) (heap s) ->
     Forall (fun cl => client_cache cl = JObject []) (heap s')).
Proof.
  induction rest as [|[k cfg] rest IH]; intros s Hnone.
  - exists s. auto.
  - destruct (built_frame k cfg s) as (Bp & Bh & _ & Be).
    assert (Hit : iteration reparse cacheRestore na c s (k, cfg) = Returned (built na c k cfg s)).
    { rewrite iteration_built. apply restore_nothing. rewrite Bp.
      apply Hnone, list_elem_of_here. }
    destruct (IH (built na c k cfg s)) as (s' & Hl & Hr & Hf).
    { intros key Hkey. rewrite Bp. apply Hnone, list_elem_of_further, Hkey. }
    exists s'. cbn [loop]. rewrite Hit. split; [exact Hl|].
    split; [congruence|]. intros Hfresh. apply Hf. rewrite Bh.
    apply Forall_app. split; [exact Hfresh|]. constructor; [reflexivity|constructor].
Qed.

End Steps.

End PluginFacts.

(** ** The default alias *)

Module Registry.
Import Plugin PluginFacts.

(** C6.  When no configured client is named ["default"] (keys being
    distinct, as the keys of an object are), the registry the plugin has
    built binds ["default"] to the very client bound to the first key, and
    the loop assigned the alias once, in its first turn, when there is a
    client, and never otherwise. *)
Theorem default_alias_is_first_client reparse cacheRestore na c payload s :
  "default" ∉ keys na ->
  NoDup (keys na) ->
  plugin reparse cacheRestore na c payload = Returned s ->
  defaultClient s = head (keys na) ≫= (fun k => registry s !! k) /\
  (forall k, head (keys na) = Some k -> is_Some (defaultClient s)) /\
  assignments (events s) = option_list (head (keys na)).
Proof.
  unfold plugin, defaultClient, keys. intros Hn Hnd.
  destruct (clients na) as [|[k0 cfg0] rest] eqn:Hcl.
  - intros [= <-]. cbn. split; [apply lookup_empty|].
    split; [discriminate|reflexivity].
  - intros (s1 & Hit & Hl)%loop_cons. rewrite iteration_built in Hit.
    cbn in Hn, Hnd. apply NoDup_cons in Hnd as [Hk0 _].
    destruct (restore_frame _ _ _ _ _ _ _ Hit) as (Hg & _ & _ & _ & Ha & _).
    destruct (built_first na c k0 cfg0 payload) as [Bg Ba].
    { unfold keys. rewrite Hcl. exact Hn. }
    { unfold keys. rewrite Hcl. reflexivity. }
    assert (Hkd : k0 <> "default").
    { intros ->. apply Hn, list_elem_of_here. }
    assert (Hd1 : registry s1 !! "default" = Some 0%nat).
    { rewrite Hg, Bg. apply lookup_insert_eq. }
    assert (Hk1 : registry s1 !! k0 = Some 0%nat).
    { rewrite Hg, Bg, lookup_insert_ne by congruence. apply lookup_insert_eq. }
    destruct (loop_alias reparse cacheRestore na c k0 rest s1 s) as (Ld & Le & La); auto.
    + apply Forall_forall. intros [k cfg] Hin. cbn. split.
      * intros ->. apply Hk0. apply list_elem_of_fmap. exists (k0, cfg). auto.
      * intros ->. apply Hn, list_elem_of_further.
        apply list_elem_of_fmap. exists ("default", cfg). auto.
    + rewrite Hd1. eauto.
    + cbn. split; [exact Le|]. split; [intros _ _; exact Ld | congruence].
Qed.

Lemma default_alias_is_first_client_witness :
  exists s,
    plugin Returned Samples.keepObjects Samples.two Client ∅ = Returned s /\
    defaultClient s = Some 0%nat /\
    registry s !! "main" = Some 0%nat /\
    registry s !! "other" = Some 1%nat /\
    assignments (events s) = ["main"].
Proof.
  eexists. split; [reflexivity|].
  pose proof (default_alias_is_first_client Returned Samples.keepObjects Samples.two Client ∅ _
                ltac:(apply (bool_decide_unpack _); vm_compute; exact I)
                ltac:(apply (bool_decide_unpack _); vm_compute; exact I)
                eq_refl) as (Hd & _ & Ha).
  split; [exact Hd|]. split; [reflexivity|]. split; [reflexivity|exact Ha].
Defined.

End Registry.

(** ** Cache transfer through the payload *)

Module CacheTransfer.
Import Plugin PluginFacts.

(** C7 (amended).  The plugin registers the cache-extraction callback on
    ['app:rendered'] once for every configured client, in the order of the
    configuration and whatever the execution context: the registration
    stands under no test of [process.server]. *)
Theorem rendered_callback_for_every_client reparse cacheRestore na c payload s :
  plugin reparse cacheRestore na c payload = Returned s ->
  rendered_hooks s =
    imap (fun i k => {| cb_cacheKey := cacheKey k; cb_client := i |}) (keys na).
Proof.
  unfold plugin. intros H.
  destruct (loop_hooks _ _ _ _ _ _ _ H) as (_ & _ & ->). reflexivity.
Qed.

Lemma rendered_callback_for_every_client_witness :
  exists s,
    plugin Returned Samples.keepObjects Samples.two Server ∅ = Returned s /\
    rendered_hooks s =
      [ {| cb_cacheKey := "_apollo:main"; cb_client := 0 |};
        {| cb_cacheKey := "_apollo:other"; cb_client := 1 |} ].
Proof.
  eexists. split; [reflexivity|].
  exact (rendered_callback_for_every_client Returned Samples.keepObjects Samples.two Server ∅ _ eq_refl).
Defined.

(** C7, as stated, fails on a client context: the plugin built there has
    registered the callback, and a firing of ['app:rendered'] would write
    the cache's extract into the payload. *)
Lemma rendered_callback_on_client :
  exists s,
    plugin Returned Samples.keepObjects (Samples.na true) Client ∅ = Returned s /\
    rendered_hooks s = [ {| cb_cacheKey := "_apollo:main"; cb_client := 0 |} ] /\
    payload_data s !! "_apollo:main" = None /\
    payload_data (fireRendered s) !! "_apollo:main" = Some (JObject []).
Proof. eexists. repeat split. Qed.

(** C9.  On a client context a cache is restored only for a configured
    key under whose ["_apollo:<key>"] the payload holds a truthy value.
    Where every such entry is missing or [null], the plugin is built
    without an error, whatever the deserializer would do, no cache is
    restored and every cache is the empty one it was made as. *)
Theorem restore_only_from_payload reparse cacheRestore na payload :
  (forall s key,
     plugin reparse cacheRestore na Client payload = Returned s ->
     key ∈ restorations (events s) ->
     key ∈ keys na /\
     exists v, payload !! cacheKey key = Some v /\ truthy v = true) /\
  ((forall key, key ∈ keys na ->
      payload !! cacheKey key = None \/ payload !! cacheKey key = Some JNull) ->
   exists s,
     plugin reparse cacheRestore na Client payload = Returned s /\
     restorations (events s) = [] /\
     Forall (fun cl => client_cache cl = JObject []) (heap s)).
Proof.
  unfold plugin. split.
  - intros s key H Hin.
    destruct (loop_restorations _ _ _ _ _ _ _ _ H Hin) as [Hold | (Hk & _ & Hv)].
    + cbn in Hold. apply not_elem_of_nil in Hold. contradiction.
    + split; [exact Hk | exact Hv].
  - intros Hnone.
    destruct (loop_nothing reparse cacheRestore na Client (clients na) (init payload) Hnone)
      as (s & Hl & Hr & Hf).
    exists s. split; [exact Hl|]. split; [exact Hr|]. apply Hf. constructor.
Qed.

(** A deserializer that throws on every value does not stop a build that
    has nothing to restore. *)
Lemma restore_only_from_payload_witness :
  exists s,
    plugin (fun _ => Threw "JSON.stringify") Samples.keepObjects Samples.two Client
           {[ "_apollo:main" := JNull ]} = Returned s /\
    restorations (events s) = [] /\
    Forall (fun cl => client_cache cl = JObject []) (heap s).
Proof.
  apply (proj2 (restore_only_from_payload (fun _ => Threw "JSON.stringify") Samples.keepObjects
                  Samples.two {[ "_apollo:main" := JNull ]})).
  intros key Hkey.
  apply elem_of_cons in Hkey as [-> | Hkey]; [right; reflexivity|].
  apply list_elem_of_singleton in Hkey as ->. left. reflexivity.
Defined.

(** A truthy entry is restored, through the deserializer. *)
Lemma restore_from_payload :
  exists s cl,
    plugin Returned Samples.keepObjects (Samples.na true) Client
           {[ "_apollo:main" := JObject [("ROOT_QUERY", JObject [])] ]} = Returned s /\
    restorations (events s) = ["main"] /\
    heap s !! 0%nat = Some cl /\
    client_cache cl = JObject [("ROOT_QUERY", JObject [])].
Proof. eexists _, _. repeat split. Qed.

End CacheTransfer.


(** * Further properties of the plugin *)

(** ** The cookie scan of line 38 *)

Module CookieScan.
Import JS JSFacts Auth AuthFacts.

(** No piece of a split holds the separator. *)
Lemma split_pieces sep s : Forall (fun e => occurs sep e = false) (split sep s).
Proof.
  induction s as [|c r IH]; simpl.
  - repeat constructor.
  - destruct (Ascii.eqb c sep) eqn:E.
    + constructor; [reflexivity | exact IH].
    + destruct (split sep r) as [|x t]; [repeat constructor; simpl; rewrite E; reflexivity|].
      inversion IH as [|? ? Hx Ht]; subst.
      constructor; [simpl; rewrite E; exact Hx | exact Ht].
Qed.

(** Nor any code unit the whole string does not hold. *)
Lemma split_pieces_without sep d s :
  occurs d s = false -> Forall (fun e => occurs d e = false) (split sep s).
Proof.
  induction s as [|c r IH]; simpl.
  - intros _. repeat constructor.
  - intros H. apply orb_false_iff in H as [Hc Hr]. specialize (IH Hr).
    destruct (Ascii.eqb c sep).
    + constructor; [reflexivity | exact IH].
    + destruct (split sep r) as [|x t]; [repeat constructor; simpl; rewrite Hc; reflexivity|].
      inversion IH as [|? ? Hx Ht]; subst.
      constructor; [simpl; rewrite Hc; exact Hx | exact Ht].
Qed.

(** X1.  Whatever the header and the name, a token the scan returns holds
    neither a semicolon nor an equals sign. *)
Theorem scan_token_has_no_separator name cookie t :
  scanCookieHeader name cookie = Some t ->
  occurs ";" t = false /\ occurs "=" t = false.
Proof.
  unfold scanCookieHeader.
  destruct (List.find _ (split ";" cookie)) as [c|] eqn:F; [|discriminate].
  apply List.find_some in F as [Hin _]. apply list_elem_of_In in Hin.
  pose proof (proj1 (Forall_forall _ _) (split_pieces ";" cookie) c Hin) as Hc.
  intros Ht. apply list_elem_of_lookup_2 in Ht. split.
  - exact (proj1 (Forall_forall _ _) (split_pieces_without "=" ";" c Hc) t Ht).
  - exact (proj1 (Forall_forall _ _) (split_pieces "=" c) t Ht).
Qed.

Lemma scan_token_has_no_separator_witness :
  occurs ";" "abc" = false /\ occurs "=" "abc" = false.
Proof.
  exact (scan_token_has_no_separator "tok" "other=x; tok=abc==; z=1" "abc" eq_refl).
Defined.

(** [trimEnd] stops at the last code unit that is no white space. *)
Lemma trimEnd_after n d v :
  isWhiteSpace d = false ->
  trimEnd (n ++ String d v) = n ++ String d (trimEnd v).
Proof.
  intros Hd. induction n as [|c r IH].
  - change (trimEnd (String d v) = String d (trimEnd v)). simpl.
    destruct (trimEnd v); [rewrite Hd|]; reflexivity.
  - rewrite !app_cons. simpl. rewrite IH.
    destruct r; reflexivity.
Qed.

(** The trimmed form of an entry [ws name=value]. *)
Lemma trim_entry ws n v :
  all isWhiteSpace ws = true -> trimStart n = n ->
  trim (ws ++ n ++ "=" ++ v) = n ++ "=" ++ trimEnd v.
Proof.
  intros Hws Hn. unfold trim. rewrite (trimStart_whitespace _ _ Hws).
  destruct n as [|c r].
  - exact (trimEnd_after EmptyString "=" v eq_refl).
  - rewrite trimStart_fixed_app by congruence.
    exact (trimEnd_after (String c r) "=" v eq_refl).
Qed.

(** Two names without an equals sign, one a prefix of the other up to and
    including the sign that follows, are the same name. *)
Lemma startsWith_name a : forall b v,
  occurs "=" a = false -> occurs "=" b = false ->
  startsWith (a ++ "=") (b ++ String "=" v) = true -> a = b.
Proof.
  induction a as [|y a' IH]; intros [|x b'] v Ha Hb; try reflexivity.
  - change (startsWith "=" (String x (b' ++ String "=" v)) = true -> "" = String x b').
    cbn [startsWith]. destruct (Ascii.eqb_spec "=" x) as [<-|N]; [|discriminate].
    simpl in Hb. discriminate.
  - change (startsWith (String y (a' ++ "=")) (String "=" v) = true -> String y a' = "").
    cbn [startsWith]. destruct (Ascii.eqb_spec y "=") as [->|N]; [|discriminate].
    simpl in Ha. discriminate.
  - change (startsWith (String y (a' ++ "=")) (String x (b' ++ String "=" v)) = true
            -> String y a' = String x b').
    cbn [startsWith]. simpl in Ha, Hb.
    apply orb_false_iff in Ha as [_ Ha]. apply orb_false_iff in Hb as [_ Hb].
    intros [Hyx H]%andb_true_iff.
    apply Ascii.eqb_eq in Hyx as ->. f_equal. exact (IH b' v Ha Hb H).
Qed.

(** X2.  The scan never takes the value of a cookie of another name: on a
    header all of whose entries are [name=value] pairs under names other
    than the token name, it finds nothing. *)
Theorem scan_ignores_other_names name (entries : list string) :
  occurs "=" name = false ->
  entries <> [] ->
  Forall (fun e => occurs ";" e = false /\
            exists ws n v,
              e = ws ++ n ++ "=" ++ v /\ all isWhiteSpace ws = true /\
              trimStart n = n /\ occurs "=" n = false /\ n <> name) entries ->
  scanCookieHeader name (join ";" entries) = None.
Proof.
  intros Hname Hne Hall. unfold scanCookieHeader.
  rewrite split_join; [|exact Hne|eapply Forall_impl; [exact Hall|]; intros e [H _]; exact H].
  clear Hne. induction Hall as [|e l (_ & ws & n & v & -> & Hws & Hn & Hen & Hdiff) _ IH].
  - reflexivity.
  - cbn [List.find]. rewrite (trim_entry ws n v Hws Hn).
    destruct (startsWith (name ++ "=") (n ++ "=" ++ trimEnd v)) eqn:E; [|exact IH].
    apply (startsWith_name name n (trimEnd v) Hname Hen) in E. congruence.
Qed.

Lemma scan_ignores_other_names_witness :
  scanCookieHeader "tok" "xtok=1; token=2; to=3" = None.
Proof.
  apply (scan_ignores_other_names "tok" ["xtok=1"; " token=2"; " to=3"]).
  - reflexivity.
  - discriminate.
  - repeat constructor;
      [exists "", "xtok", "1" | exists " ", "token", "2" | exists " ", "to", "3"];
      repeat split; discriminate.
Defined.

End CookieScan.

(** ** What [getAuth] returns *)

Module Credential.
Import JS JSFacts Auth AuthFacts.

(** X3.  Where the configured scheme is a word of letters (or the policy is
    the raw token), the header value of a header value is that header
    value: a credential stored back as the token is not prefixed twice. *)
Theorem header_value_idempotent cfg tok :
  (forall ty, authType cfg = Some ty ->
              ty <> EmptyString /\ all isLetter ty = true) ->
  authHeaderValue cfg (authHeaderValue cfg tok) = authHeaderValue cfg tok.
Proof.
  intros Hty. unfold authHeaderValue.
  destruct (matchesScheme tok) eqn:M; [rewrite M; reflexivity|].
  destruct (authType cfg) as [ty|] eqn:T; [|rewrite M; reflexivity].
  destruct (Hty ty eq_refl) as [Hne Hl].
  assert (S : matchesScheme (ty ++ " " ++ tok) = true).
  { apply matchesScheme_spec. exists ty, " "%char, tok. auto. }
  rewrite S. reflexivity.
Qed.

Lemma header_value_idempotent_witness :
  authHeaderValue Samples.cfg (authHeaderValue Samples.cfg "abc123")
  = authHeaderValue Samples.cfg "abc123".
Proof.
  apply (header_value_idempotent Samples.cfg "abc123").
  intros ty [= <-]. split; [discriminate | reflexivity].
Defined.

(** X4.  A credential [getAuth] returns is never the empty string, so the
    test [!auth] of its two callers fails exactly when there is no
    credential. *)
Theorem credential_is_not_empty rc h key cfg t v :
  getAuth rc h key cfg = (t, Returned (Some v)) -> truthy v = true.
Proof.
  destruct (resolveToken rc h key cfg) as [t0 [[tok|]|e]] eqn:R.
  - rewrite (getAuth_of_token _ _ _ _ _ _ R). intros [= _ <-].
    apply authHeaderValue_truthy, (resolveToken_truthy _ _ _ _ _ _ R).
  - rewrite (getAuth_no_token _ _ _ _ _ R). discriminate.
  - rewrite (getAuth_threw _ _ _ _ _ _ R). discriminate.
Qed.

Lemma credential_is_not_empty_witness : truthy "Bearer abc123" = true.
Proof.
  exact (credential_is_not_empty
           (requestCookies (Samples.na true) (Samples.server "tok=abc123; other=x"))
           (Samples.server "tok=abc123; other=x") "main" Samples.cfg
           [HookCalled "main"; HeaderScanned] "Bearer abc123" eq_refl).
Defined.

(** X5.  Nothing catches an ['apollo:auth'] callback that throws: the
    exception leaves [getAuth], the auth link and the connection-parameter
    supplier, and no token store has been read. *)
Theorem hook_failure_propagates rc h key cfg prev e :
  runHooks (authHooks h) key None = Threw e ->
  getAuth rc h key cfg = ([HookCalled key], Threw e) /\
  authLink rc h key cfg prev = ([HookCalled key], Threw e) /\
  exists t e', connectionParams rc h key cfg = (t, Threw e') /\
               forall a, a ∈ t -> a = HookCalled key \/ a = ParamsProducerCalled.
Proof.
  intros Hh.
  pose proof (getAuth_threw _ _ _ _ _ _ (resolveToken_hook_threw rc h key cfg e Hh)) as G.
  split; [exact G|]. split.
  - unfold authLink, authSetter, bind. rewrite G. reflexivity.
  - unfold connectionParams, bind, tell, lift, ret.
    destruct (wsConnectionParams cfg) as [[p|f]|].
    + rewrite G. eexists _, _. split; [reflexivity|].
      intros a ->%list_elem_of_singleton. auto.
    + destruct (f h) as [p|e'].
      * rewrite G. eexists _, _. split; [reflexivity|].
        intros a [-> | ->%list_elem_of_singleton]%elem_of_cons; auto.
      * eexists _, _. split; [reflexivity|].
        intros a ->%list_elem_of_singleton. auto.
    + rewrite G. eexists _, _. split; [reflexivity|].
      intros a ->%list_elem_of_singleton. auto.
Qed.

Lemma hook_failure_propagates_witness :
  getAuth None (Samples.browser [fun _ _ => Threw "denied"] (Some "stored"))
          "main" Samples.cfg
  = ([HookCalled "main"], Threw "denied").
Proof.
  exact (proj1 (hook_failure_propagates None
                  (Samples.browser [fun _ _ => Threw "denied"] (Some "stored"))
                  "main" Samples.cfg
                  {| ctx_headers := None; ctx_rest := ∅ |} "denied" eq_refl)).
Defined.

(** X6.  On a server context with cookie proxying off, the hook is the only
    source of a token: when it leaves the slot empty no store is read and
    there is no credential, whatever [tokenStorage] says. *)
Theorem server_without_proxying_reads_no_store na h key cfg slot :
  context h = Server ->
  proxyCookies na = false ->
  runHooks (authHooks h) key None = Returned slot ->
  truthy_opt slot = false ->
  getAuth (requestCookies na h) h key cfg = ([HookCalled key], Returned None).
Proof.
  intros Hc Hp Hh Hs. apply getAuth_no_token.
  rewrite requestCookies_none by (rewrite Hp; apply andb_false_r).
  destruct (String.eq_dec (tokenStorage cfg) "cookie") as [E|E].
  - apply (resolveToken_no_header _ _ _ _ _ Hh Hs E Hc). discriminate.
  - apply (resolveToken_no_store _ _ _ _ _ Hh Hs E). left. exact Hc.
Qed.

Lemma server_without_proxying_reads_no_store_witness :
  getAuth (requestCookies (Samples.na false) (Samples.server "tok=abc123"))
          (Samples.server "tok=abc123") "main" Samples.cfg
  = ([HookCalled "main"], Returned None).
Proof.
  exact (server_without_proxying_reads_no_store (Samples.na false)
           (Samples.server "tok=abc123") "main" Samples.cfg None
           eq_refl eq_refl eq_refl eq_refl).
Defined.

End Credential.

(** ** The headers the auth link writes *)

Module AuthLinkHeaders.
Import JS JSFacts Auth AuthFacts AuthDecoration.

(** X7.  With a credential, the auth link leaves every other field of the
    context alone and writes headers in which the auth header carries the
    credential, whatever the caller or the proxied cookies had under that
    name; a proxied request header replaces the caller's header of the
    same name; every other header of the caller is kept. *)
Theorem auth_link_header_precedence rc h key cfg prev t tok :
  resolveToken rc h key cfg = (t, Returned (Some tok)) ->
  exists hs,
    authLink rc h key cfg prev
      = (t, Returned {| ctx_headers := Some hs; ctx_rest := ctx_rest prev |}) /\
    hs !! authHeader cfg = Some (authHeaderValue cfg tok) /\
    (forall k x, k <> authHeader cfg -> spread rc !! k = Some x -> hs !! k = Some x) /\
    (forall k, k <> authHeader cfg -> spread rc !! k = None ->
               hs !! k = spread (ctx_headers prev) !! k).
Proof.
  intros H. eexists. split; [exact (authLink_token _ _ _ _ prev _ _ H)|].
  split; [apply lookup_insert_eq|]. split.
  - intros k x Hk Hx. rewrite lookup_insert_ne by congruence.
    apply lookup_union_Some_l, Hx.
  - intros k Hk Hx. rewrite lookup_insert_ne by congruence.
    apply lookup_union_r, Hx.
Qed.

Lemma auth_link_header_precedence_witness :
  exists hs,
    authLink (requestCookies (Samples.na true) (Samples.server "tok=abc123"))
             (Samples.server "tok=abc123") "main" Samples.cfg
             {| ctx_headers := Some {[ "Authorization" := "Basic old" ]}; ctx_rest := ∅ |}
      = ([HookCalled "main"; HeaderScanned],
         Returned {| ctx_headers := Some hs; ctx_rest := ∅ |}) /\
    hs !! "Authorization" = Some "Bearer abc123".
Proof.
  destruct (auth_link_header_precedence
              (requestCookies (Samples.na true) (Samples.server "tok=abc123"))
              (Samples.server "tok=abc123") "main" Samples.cfg
              {| ctx_headers := Some {[ "Authorization" := "Basic old" ]}; ctx_rest := ∅ |}
              [HookCalled "main"; HeaderScanned] "abc123" eq_refl)
    as (hs & Hl & Ha & _).
  exists hs. split; [exact Hl | exact Ha].
Defined.

(** X8.  On a client context no request cookie is proxied, whatever
    [proxyCookies] says: with a credential the auth link adds the auth
    header to the caller's headers and nothing else. *)
Theorem client_link_adds_only_auth_header na h key cfg prev t tok :
  context h = Client ->
  resolveToken (requestCookies na h) h key cfg = (t, Returned (Some tok)) ->
  authLink (requestCookies na h) h key cfg prev
    = (t, Returned {| ctx_headers :=
                        Some (<[ authHeader cfg := authHeaderValue cfg tok ]>
                                (spread (ctx_headers prev)));
                      ctx_rest := ctx_rest prev |}).
Proof.
  intros Hc. rewrite requestCookies_none by (rewrite Hc; reflexivity).
  intros H. rewrite (authLink_token _ _ _ _ prev _ _ H).
  unfold spread at 1. cbn [default]. rewrite (left_id_L ∅ (∪)). reflexivity.
Qed.

Lemma client_link_adds_only_auth_header_witness :
  authLink (requestCookies (Samples.na true) (Samples.browser [] (Some "abc123")))
           (Samples.browser [] (Some "abc123")) "main" Samples.cfg
           {| ctx_headers := Some {[ "x-caller" := "1" ]}; ctx_rest := ∅ |}
  = ([HookCalled "main"; CookieRead "tok"],
     Returned {| ctx_headers :=
                   Some (<[ "Authorization" := "Bearer abc123" ]> {[ "x-caller" := "1" ]});
                 ctx_rest := ∅ |}).
Proof.
  exact (client_link_adds_only_auth_header (Samples.na true)
           (Samples.browser [] (Some "abc123")) "main" Samples.cfg
           {| ctx_headers := Some {[ "x-caller" := "1" ]}; ctx_rest := ∅ |}
           [HookCalled "main"; CookieRead "tok"] "abc123" eq_refl eq_refl).
Defined.

End AuthLinkHeaders.

(** ** The connection-parameter supplier beyond the collision *)

Module ConnectionParameters.
Import JS JSFacts Auth AuthFacts Subscription.

(** X9.  With a credential, the supplier returns the caller's static
    parameters with every one of the caller's headers in place, and adds
    the credential resolved at this call under the auth header when the
    caller has no header of that name. *)
Theorem connection_params_keep_caller_entries rc h key cfg p t tok :
  wsConnectionParams cfg = Some (CPObject p) ->
  resolveToken rc h key cfg = (t, Returned (Some tok)) ->
  exists hs,
    connectionParams rc h key cfg
      = (t, Returned (Some {| cp_headers := Some hs; cp_rest := cp_rest p |})) /\
    (forall k x, spread (cp_headers p) !! k = Some x -> hs !! k = Some x) /\
    (spread (cp_headers p) !! authHeader cfg = None ->
     hs !! authHeader cfg = Some (authHeaderValue cfg tok)) /\
    (forall k, k <> authHeader cfg -> hs !! k = spread (cp_headers p) !! k).
Proof.
  intros Hp H. eexists. split; [exact (connectionParams_merged _ _ _ _ _ _ _ Hp H)|].
  split; [|split].
  - intros k x Hx. apply lookup_union_Some_l, Hx.
  - intros Hfree. rewrite lookup_union_r by exact Hfree. apply lookup_singleton_eq.
  - intros k Hk. rewrite lookup_union. rewrite lookup_singleton_ne by congruence.
    destruct (spread (cp_headers p) !! k); reflexivity.
Qed.

Lemma connection_params_keep_caller_entries_witness :
  exists hs,
    connectionParams None (Samples.browser [] (Some "rotated")) "main"
      {| httpEndpoint := "https://api/graphql"; browserHttpEndpoint := None;
         wsEndpoint := Some "wss://api/graphql"; tokenStorage := "localStorage";
         tokenName := "tok"; authHeader := "Authorization"; authType := Some "Bearer";
         websocketsOnly := false;
         wsConnectionParams :=
           Some (CPObject {| cp_headers := Some {[ "x-tenant" := "a" ]};
                             cp_rest := {[ "lazy" := "1" ]} |}) |}
      = ([HookCalled "main"; LocalStorageRead "tok"],
         Returned (Some {| cp_headers := Some hs; cp_rest := {[ "lazy" := "1" ]} |})) /\
    hs !! "x-tenant" = Some "a" /\
    hs !! "Authorization" = Some "Bearer rotated".
Proof.
  destruct (connection_params_keep_caller_entries None
              (Samples.browser [] (Some "rotated")) "main"
              {| httpEndpoint := "https://api/graphql"; browserHttpEndpoint := None;
                 wsEndpoint := Some "wss://api/graphql"; tokenStorage := "localStorage";
                 tokenName := "tok"; authHeader := "Authorization";
                 authType := Some "Bearer"; websocketsOnly := false;
                 wsConnectionParams :=
                   Some (CPObject {| cp_headers := Some {[ "x-tenant" := "a" ]};
                                     cp_rest := {[ "lazy" := "1" ]} |}) |}
              _ [HookCalled "main"; LocalStorageRead "tok"] "rotated" eq_refl eq_refl)
    as (hs & Hc & Hk & Ha & _).
  exists hs. split; [exact Hc|]. split; [apply Hk | apply Ha]; reflexivity.
Defined.

(** X10.  Starting from nothing: when no static parameters are configured,
    or the configured producer returns [undefined], a credential yields an
    object that holds the auth header and nothing else. *)
Theorem connection_params_from_nothing rc h key cfg t0 t tok :
  (wsConnectionParams cfg = None /\ t0 = []) \/
  (exists f, wsConnectionParams cfg = Some (CPFunction f) /\
             f h = Returned None /\ t0 = [ParamsProducerCalled]) ->
  resolveToken rc h key cfg = (t, Returned (Some tok)) ->
  connectionParams rc h key cfg
    = ((t0 ++ t)%list,
       Returned (Some {| cp_headers := Some {[ authHeader cfg := authHeaderValue cfg tok ]};
                         cp_rest := ∅ |})).
Proof.
  intros Hcfg H. unfold connectionParams, bind, tell, lift, ret.
  rewrite (getAuth_of_token _ _ _ _ _ _ H).
  pose proof (authHeaderValue_truthy cfg tok (resolveToken_truthy _ _ _ _ _ _ H)) as Tr.
  destruct Hcfg as [[-> ->] | (f & -> & Hf & ->)]; [|rewrite Hf];
    cbn [truthy_opt app]; rewrite Tr; cbn [app]; rewrite app_nil_r;
    cbn [mbind option_bind cp_headers noParams spread default fmap option_fmap option_map cp_rest];
    rewrite (left_id_L ∅ (∪)); reflexivity.
Qed.

Lemma connection_params_from_nothing_witness :
  connectionParams None (Samples.browser [] (Some "abc123")) "main" Samples.cfg
  = ([HookCalled "main"; CookieRead "tok"],
     Returned (Some {| cp_headers := Some {[ "Authorization" := "Bearer abc123" ]};
                       cp_rest := ∅ |})).
Proof.
  exact (connection_params_from_nothing None (Samples.browser [] (Some "abc123"))
           "main" Samples.cfg [] [HookCalled "main"; CookieRead "tok"] "abc123"
           (or_introl (conj eq_refl eq_refl)) eq_refl).
Defined.

(** A producer of connection parameters that throws ends the supplier at
    once, before [getAuth] is called. *)
Lemma producer_failure rc h key cfg f e :
  wsConnectionParams cfg = Some (CPFunction f) ->
  f h = Threw e ->
  connectionParams rc h key cfg = ([ParamsProducerCalled], Threw e).
Proof.
  intros Hp Hf. unfold connectionParams, bind, tell, lift, ret.
  rewrite Hp, Hf. reflexivity.
Qed.

End ConnectionParameters.

(** ** The shape of every route *)

Module LinkShape.
Import Link.

Lemma wsLink_inv c cfg ws :
  wsLink c cfg = Some ws ->
  exists url, ws = Single (WsLink url) /\ wsEndpoint cfg = Some url /\
              JS.truthy url = true /\ c = Client.
Proof.
  unfold wsLink. destruct (wsEndpoint cfg) as [url|]; [|discriminate].
  destruct c; [discriminate|]. cbn.
  destruct (JS.truthy url) eqn:T; [|discriminate].
  intros [= <-]. exists url. auto.
Qed.

(** X11.  Whatever the configuration, the context and the operation, a
    route that is taken is one of two: error link, auth link, HTTP link;
    or, on a client context with a subscription endpoint, error link,
    subscription link.  So the error link comes first and once, the auth
    link stands before the HTTP link only, and one transport ends the
    route. *)
Theorem every_route_has_one_of_two_shapes c cfg q p :
  request (link c cfg) q = Returned p ->
  p = [ErrorLink; AuthLink; HttpLink (uri c cfg)] \/
  (exists url, c = Client /\ wsEndpoint cfg = Some url /\ JS.truthy url = true /\
               p = [ErrorLink; WsLink url]).
Proof.
  unfold link. destruct (wsLink c cfg) as [ws|] eqn:W.
  - destruct (wsLink_inv _ _ _ W) as (url & -> & He & Ht & Hc).
    destruct (websocketsOnly cfg).
    + cbn. intros [= <-]. right. exists url. auto.
    + cbn. destruct (isSubscription q) as [[|]|e]; cbn; [| |discriminate].
      * intros [= <-]. right. exists url. auto.
      * intros [= <-]. left. reflexivity.
  - cbn. intros [= <-]. left. reflexivity.
Qed.

Lemma every_route_has_one_of_two_shapes_witness :
  [ErrorLink; WsLink "wss://api/graphql"]
    = [ErrorLink; AuthLink; HttpLink (uri Client Samples.cfg)] \/
  (exists url, Client = Client /\ wsEndpoint Samples.cfg = Some url /\
               JS.truthy url = true /\
               [ErrorLink; WsLink "wss://api/graphql"] = [ErrorLink; WsLink url]).
Proof.
  exact (every_route_has_one_of_two_shapes Client Samples.cfg
           [OperationDefinition Subscription] _ eq_refl).
Defined.

(** X12.  An operation passes by the auth link exactly when it is sent over
    the subscription link, and that is exactly when the subscription link
    is in place and either [websocketsOnly] is set (queries and mutations
    then go the same way) or the main definition of the document is a
    subscription operation. *)
Theorem auth_link_skipped_iff_sent_over_ws c cfg q p :
  request (link c cfg) q = Returned p ->
  (AuthLink ∉ p <->
   exists url, wsLink c cfg = Some (Single (WsLink url)) /\
     (websocketsOnly cfg = true \/
      getMainDefinition q = Returned (OperationDefinition Subscription))) /\
  (AuthLink ∉ p <-> exists url, p = [ErrorLink; WsLink url]).
Proof.
  assert (Hin : AuthLink ∈ [ErrorLink; AuthLink; HttpLink (uri c cfg)]).
  { apply list_elem_of_further, list_elem_of_here. }
  assert (Hout : forall url, AuthLink ∉ [ErrorLink; WsLink url]).
  { intros url H. rewrite !elem_of_cons in H.
    destruct H as [H|[H|H]]; [discriminate..|]. apply not_elem_of_nil in H. exact H. }
  unfold link. destruct (wsLink c cfg) as [ws|] eqn:W.
  - destruct (LinkShape.wsLink_inv _ _ _ W) as (url & -> & _).
    destruct (websocketsOnly cfg).
    + cbn. intros [= <-]. split; (split; [intros _; eauto | intros _; apply Hout]).
    + cbn. unfold isSubscription.
      destruct (getMainDefinition q) as [[[| |]|]|e]; cbn; try discriminate;
        intros [= <-]; split; split;
        try (intros H; exfalso; exact (H Hin));
        try (intros (u & _ & [H|H]); discriminate H);
        try (intros (u & H); discriminate H);
        try (intros _; apply Hout);
        try (intros _; solve [eauto]).
  - cbn. intros [= <-]. split; split;
      try (intros H; exfalso; exact (H Hin));
      try (intros (u & H & _); discriminate H);
      try (intros (u & H); discriminate H).
Qed.

Lemma auth_link_skipped_iff_sent_over_ws_witness :
  AuthLink ∉ [ErrorLink; WsLink "wss://api/graphql"] <->
  exists url, [ErrorLink; WsLink "wss://api/graphql"] = [ErrorLink; WsLink url].
Proof.
  exact (proj2 (auth_link_skipped_iff_sent_over_ws Client
                  {| httpEndpoint := "https://api/graphql"; browserHttpEndpoint := None;
                     wsEndpoint := Some "wss://api/graphql"; tokenStorage := "cookie";
                     tokenName := "tok"; authHeader := "Authorization";
                     authType := Some "Bearer"; websocketsOnly := true;
                     wsConnectionParams := None |}
                  [OperationDefinition Query] _ eq_refl)).
Defined.

(** X13.  On a server context every operation, a subscription as well, goes
    through the auth link to the HTTP link at [httpEndpoint]: neither
    [wsEndpoint], nor [websocketsOnly], nor [browserHttpEndpoint] has a
    say there. *)
Theorem server_routes_everything_to_http cfg q :
  request (link Server cfg) q
  = Returned [ErrorLink; AuthLink; HttpLink (httpEndpoint cfg)].
Proof.
  unfold link, wsLink, httpLink, uri.
  destruct (wsEndpoint cfg), (browserHttpEndpoint cfg); reflexivity.
Qed.

(** X14.  Under the split, the subscription link is taken exactly for a
    document whose main definition is a subscription operation, which is a
    document whose one operation definition is a subscription (a document
    of fragments only goes to HTTP); the routing throws exactly where
    [getMainDefinition] does, and so on every document with more than one
    operation definition. *)
Theorem split_takes_ws_iff_subscription c cfg url q :
  wsLink c cfg = Some (Single (WsLink url)) ->
  websocketsOnly cfg = false ->
  (request (link c cfg) q = Returned [ErrorLink; WsLink url] <->
   getMainDefinition q = Returned (OperationDefinition Subscription)) /\
  (request (link c cfg) q = Returned [ErrorLink; WsLink url] <->
   List.filter isOperation q = [OperationDefinition Subscription]) /\
  (forall e, request (link c cfg) q = Threw e <-> getMainDefinition q = Threw e) /\
  ((1 < length (List.filter isOperation q))%nat ->
   exists e, request (link c cfg) q = Threw e).
Proof.
  intros Hws Hw.
  assert (Hroute : request (link c cfg) q = Returned [ErrorLink; WsLink url] <->
                   getMainDefinition q = Returned (OperationDefinition Subscription)).
  { unfold link. rewrite Hws, Hw. cbn. unfold isSubscription.
    destruct (getMainDefinition q) as [[[| |]|]|e']; cbn;
      split; intros H; first [discriminate H | reflexivity]. }
  split; [exact Hroute|].
  split; [rewrite Hroute; apply Routing.getMainDefinition_operation|].
  split.
  - intros e. unfold link. rewrite Hws, Hw. cbn. unfold isSubscription.
    destruct (getMainDefinition q) as [[[| |]|]|e']; cbn;
      split; intros H; first [discriminate H | exact H | idtac];
      try (injection H as ->; reflexivity).
  - intros Hq. eexists.
    exact (Routing.ambiguous_document_is_refused c cfg url q Hws Hw Hq).
Qed.

Lemma split_takes_ws_iff_subscription_witness :
  exists e,
    request (link Client Samples.cfg)
            [OperationDefinition Subscription; OperationDefinition Query]
    = Threw e.
Proof.
  refine (proj2 (proj2 (proj2
            (split_takes_ws_iff_subscription Client Samples.cfg "wss://api/graphql"
               [OperationDefinition Subscription; OperationDefinition Query]
               eq_refl eq_refl))) _).
  cbn. lia.
Defined.

End LinkShape.

(** ** What the loop leaves in the registry and on the heap *)

Module LoopShape.
Import Plugin PluginFacts.

Section Turns.
Variable reparse : json -> outcome json.
Variable cacheRestore : json -> outcome json.
Variable na : NuxtApolloConfig.
Variable c : ExecutionContext.

(** The client a turn of the loop on [(key, cfg)] leaves on the heap, given
    the payload [p]: the new client, its cache restored where line 159
    says so. *)
Local Abbreviation Made p key cfg cl :=
  (match p !! cacheKey key with
   | Some v =>
       if process_client c && truthy v
       then exists data extract,
              reparse v = Returned data /\ cacheRestore data = Returned extract /\
              cl = setCache extract (newClient na c key cfg)
       else cl = newClient na c key cfg
   | None => cl = newClient na c key cfg
   end).

(** The subscription clients after a turn on [(key, cfg)]. *)
Local Abbreviation wsAfter key cfg m :=
  (match Link.wsLink c cfg, wsEndpoint cfg with
   | Some _, Some url => <[ key := url ]> m
   | _, _ => m
   end).

Lemma restore_heap key r s s' :
  restore reparse cacheRestore c key r s = Returned s' ->
  apolloWsClients s' = apolloWsClients s /\
  match payload_data s !! cacheKey key with
  | Some v =>
      if process_client c && truthy v
      then exists data extract,
             reparse v = Returned data /\ cacheRestore data = Returned extract /\
             heap s' = alter (setCache extract) r (heap s)
      else heap s' = heap s
  | None => heap s' = heap s
  end.
Proof.
  unfold restore. destruct (payload_data s !! cacheKey key) as [v|];
    [|intros [= <-]; auto].
  destruct (process_client c && truthy v); [|intros [= <-]; auto].
  destruct (reparse v) as [data|e]; [|discriminate].
  destruct (cacheRestore data) as [extract|e] eqn:Hx; [|discriminate].
  intros [= <-]. cbn. split; [reflexivity|]. exists data, extract.
  split; [reflexivity|]. split; [exact Hx|reflexivity].
Qed.

Lemma aliasDefault_lookup key s k :
  k <> "default" \/ configuredDefault na = true ->
  registry (aliasDefault na key s) !! k = registry s !! k.
Proof.
  intros Hk. unfold aliasDefault.
  destruct Hk as [Hk | ->].
  - destruct (_ && _); [|reflexivity].
    destruct (registry s !! key); [|reflexivity].
    cbn. apply lookup_insert_ne. congruence.
  - rewrite andb_false_r. reflexivity.
Qed.

Lemma aliasDefault_ws key s :
  apolloWsClients (aliasDefault na key s) = apolloWsClients s.
Proof.
  unfold aliasDefault. destruct (_ && _); [|reflexivity].
  destruct (registry s !! key); reflexivity.
Qed.

Lemma aliasDefault_configured key s :
  configuredDefault na = true -> aliasDefault na key s = s.
Proof. intros H. unfold aliasDefault. rewrite H, andb_false_r. reflexivity. Qed.

Lemma registerWs_ws key cfg s :
  apolloWsClients (registerWs c key cfg s) = wsAfter key cfg (apolloWsClients s).
Proof.
  unfold registerWs. destruct (Link.wsLink c cfg); [|reflexivity].
  destruct (wsEndpoint cfg); reflexivity.
Qed.

(** All a turn of the loop does to the registry (the alias apart), the
    heap, the payload and the subscription clients. *)
Lemma turn key cfg s s' :
  iteration reparse cacheRestore na c s (key, cfg) = Returned s' ->
  payload_data s' = payload_data s /\
  apolloWsClients s' = wsAfter key cfg (apolloWsClients s) /\
  (forall k, k <> "default" \/ configuredDefault na = true ->
             registry s' !! k = <[ key := length (heap s) ]> (registry s) !! k) /\
  exists cl, heap s' = (heap s ++ [cl])%list /\ Made (payload_data s) key cfg cl.
Proof.
  rewrite iteration_built. intros Hit.
  destruct (restore_frame _ _ _ _ _ _ _ Hit) as (Hg & Hp & _).
  destruct (restore_heap _ _ _ _ Hit) as (Hw & Hh).
  destruct (built_frame na c key cfg s) as (Bp & Bh & _).
  destruct (registerWs_frame c key cfg s) as (Rg & Rh & _).
  split; [congruence|]. split; [|split].
  - rewrite Hw. unfold built, hookRendered.
    cbn [apolloWsClients]. rewrite aliasDefault_ws. unfold store.
    cbn [apolloWsClients]. apply registerWs_ws.
  - intros k Hk. rewrite Hg. unfold built, hookRendered. cbn [registry].
    rewrite (aliasDefault_lookup _ _ _ Hk). unfold store. cbn [registry].
    rewrite Rg, Rh. reflexivity.
  - rewrite Bp, Bh in Hh.
    destruct (payload_data s !! cacheKey key) as [v|];
      [destruct (process_client c && truthy v)|].
    + destruct Hh as (data & extract & Hd & He & Hh).
      exists (setCache extract (newClient na c key cfg)). split; [|eauto 6].
      rewrite Hh, alter_app_r_alt by lia. rewrite Nat.sub_diag. reflexivity.
    + exists (newClient na c key cfg). auto.
    + exists (newClient na c key cfg). auto.
Qed.

(** The clients the loop allocates, one for each entry and in their
    order. *)
Lemma loop_heap rest : forall s s',
  loop reparse cacheRestore na c s rest = Returned s' ->
  payload_data s' = payload_data s /\
  exists new, heap s' = (heap s ++ new)%list /\
    Forall2 (fun e cl => Made (payload_data s) e.1 e.2 cl) rest new.
Proof.
  induction rest as [|[key cfg] rest IH]; intros s s'.
  - intros [= <-]. split; [reflexivity|]. exists []. rewrite app_nil_r. auto.
  - intros (s1 & Hit & Hl)%loop_cons.
    destruct (turn _ _ _ _ Hit) as (Hp & _ & _ & cl & Hh & Hm).
    destruct (IH _ _ Hl) as (Ip & new & Ih & If).
    split; [congruence|]. exists (cl :: new). split.
    + rewrite Ih, Hh, <- app_assoc. reflexivity.
    + constructor; [exact Hm|]. rewrite Hp in If. exact If.
Qed.

(** Where each key is bound, keys being distinct. *)
Lemma loop_registry rest : forall s s',
  NoDup rest.*1 ->
  loop reparse cacheRestore na c s rest = Returned s' ->
  (forall i k, k <> "default" \/ configuredDefault na = true ->
     rest.*1 !! i = Some k -> registry s' !! k = Some (length (heap s) + i)%nat) /\
  (forall k, k <> "default" \/ configuredDefault na = true ->
     k ∉ rest.*1 -> registry s' !! k = registry s !! k).
Proof.
  induction rest as [|[key cfg] rest IH]; intros s s' Hnd.
  - intros [= <-]. split; [intros i k _ Hi; destruct i; discriminate Hi | auto].
  - intros (s1 & Hit & Hl)%loop_cons.
    cbn in Hnd. apply NoDup_cons in Hnd as [Hkey Hnd].
    destruct (turn _ _ _ _ Hit) as (_ & _ & Hg & cl & Hh & _).
    destruct (IH _ _ Hnd Hl) as [Ibound Ikept].
    assert (Hlen : length (heap s1) = S (length (heap s))).
    { rewrite Hh, length_app. cbn. lia. }
    split.
    + intros [|i] k Hk Hi; cbn in Hi.
      * injection Hi as <-. rewrite (Ikept key Hk Hkey), (Hg key Hk).
        rewrite lookup_insert_eq. f_equal. lia.
      * rewrite (Ibound i k Hk Hi). f_equal. lia.
    + intros k Hk Hnot. cbn in Hnot. apply not_elem_of_cons in Hnot as [Hne Hnot].
      rewrite (Ikept k Hk Hnot), (Hg k Hk). apply lookup_insert_ne. congruence.
Qed.

(** The subscription clients the loop registers. *)
Lemma loop_ws rest : forall s s',
  loop reparse cacheRestore na c s rest = Returned s' ->
  (forall k url, apolloWsClients s' !! k = Some url ->
     apolloWsClients s !! k = Some url \/
     (c = Client /\ exists cfg, (k, cfg) ∈ rest /\
                                wsEndpoint cfg = Some url /\ JS.truthy url = true)) /\
  (forall k, k ∉ rest.*1 -> apolloWsClients s' !! k = apolloWsClients s !! k).
Proof.
  induction rest as [|[key cfg] rest IH]; intros s s'.
  - intros [= <-]. auto.
  - intros (s1 & Hit & Hl)%loop_cons.
    destruct (turn _ _ _ _ Hit) as (_ & Hw & _).
    destruct (IH _ _ Hl) as [Ifrom Ikept].
    assert (Hstep : forall k url, apolloWsClients s1 !! k = Some url ->
              apolloWsClients s !! k = Some url \/
              (c = Client /\ k = key /\ wsEndpoint cfg = Some url /\ JS.truthy url = true)).
    { intros k url. rewrite Hw.
      destruct (Link.wsLink c cfg) as [ws|] eqn:W; [|auto].
      destruct (LinkShape.wsLink_inv _ _ _ W) as (u & _ & He & Ht & Hc).
      rewrite He. destruct (decide (key = k)) as [->|Hne].
      - rewrite lookup_insert_eq. intros [= <-]. auto.
      - rewrite lookup_insert_ne by exact Hne. auto. }
    split.
    + intros k url Hk. destruct (Ifrom k url Hk) as [H1 | (Hc & cfg' & Hin & He & Ht)].
      * destruct (Hstep k url H1) as [H0 | (Hc & -> & He & Ht)]; [auto|].
        right. split; [exact Hc|]. exists cfg. split; [apply list_elem_of_here|auto].
      * right. split; [exact Hc|]. exists cfg'. split; [apply list_elem_of_further, Hin|auto].
    + intros k Hnot. cbn in Hnot. apply not_elem_of_cons in Hnot as [Hne Hnot].
      rewrite (Ikept k Hnot), Hw.
      destruct (Link.wsLink c cfg); [|reflexivity].
      destruct (wsEndpoint cfg); [|reflexivity].
      apply lookup_insert_ne. congruence.
Qed.

(** A client context, a truthy entry for a configured key, a deserializer
    that throws on it: the loop throws. *)
Lemma loop_throws rest : forall s k cfg v e,
  c = Client ->
  (k, cfg) ∈ rest ->
  payload_data s !! cacheKey k = Some v -> truthy v = true ->
  reparse v = Threw e ->
  exists e', loop reparse cacheRestore na c s rest = Threw e'.
Proof.
  induction rest as [|[key cfg0] rest IH]; intros s k cfg v e Hc Hin Hv Ht Hr.
  - apply not_elem_of_nil in Hin. contradiction.
  - cbn [loop]. destruct (iteration reparse cacheRestore na c s (key, cfg0)) as [s1|e1] eqn:Hit;
      [|eauto].
    apply elem_of_cons in Hin as [[= <- <-] | Hin].
    + rewrite iteration_built in Hit. unfold restore in Hit.
      destruct (built_frame na c k cfg s) as (Bp & _).
      rewrite Bp, Hv, Hc, Ht, Hr in Hit. discriminate.
    + destruct (turn _ _ _ _ Hit) as (Hp & _).
      apply (IH s1 k cfg v e Hc Hin); [rewrite Hp|..]; assumption.
Qed.

(** On a server context the loop runs to its end, whatever the payload and
    the deserializer. *)
Lemma loop_returns_on_server rest : forall s,
  c = Server -> exists s', loop reparse cacheRestore na c s rest = Returned s'.
Proof.
  induction rest as [|[key cfg] rest IH]; intros s Hc; [eauto|].
  cbn [loop]. rewrite iteration_built. unfold restore. rewrite Hc.
  destruct (payload_data _ !! cacheKey key); cbn [process_client andb];
    rewrite <- Hc; apply IH, Hc.
Qed.

(** With a configured ["default"], no turn assigns the alias. *)
Lemma loop_configured rest : forall s s',
  configuredDefault na = true ->
  loop reparse cacheRestore na c s rest = Returned s' ->
  assignments (events s') = assignments (events s).
Proof.
  induction rest as [|[key cfg] rest IH]; intros s s' Hd.
  - intros [= <-]. reflexivity.
  - intros (s1 & Hit & Hl)%loop_cons. rewrite (IH _ _ Hd Hl).
    rewrite iteration_built in Hit.
    destruct (restore_frame _ _ _ _ _ _ _ Hit) as (_ & _ & _ & _ & Ha & _).
    rewrite Ha. unfold built, hookRendered. cbn [events].
    rewrite (aliasDefault_configured _ _ Hd). unfold store. cbn [events].
    destruct (registerWs_frame c key cfg s) as (_ & _ & _ & _ & ->). reflexivity.
Qed.

End Turns.

End LoopShape.

(** ** The registry the plugin hands out *)

Module RegistryShape.
Import Plugin PluginFacts LoopShape.

(** A key of the configuration is other than ["default"], or ["default"]
    is configured. *)
Lemma key_or_configured na i k cfg :
  clients na !! i = Some (k, cfg) ->
  k <> "default" \/ configuredDefault na = true.
Proof.
  intros Hi. destruct (decide (k = "default")) as [->|Hne]; [right|left; exact Hne].
  apply bool_decide_eq_true_2. unfold keys.
  apply list_elem_of_fmap. exists ("default", cfg). split; [reflexivity|].
  apply list_elem_of_lookup. eauto.
Qed.

Lemma keys_lookup na i k cfg :
  clients na !! i = Some (k, cfg) -> (clients na).*1 !! i = Some k.
Proof. intros Hi. rewrite list_lookup_fmap, Hi. reflexivity. Qed.

(** X15.  Keys being distinct, the registry binds every configured key to
    a client of its own, the i-th key to the i-th client made, and that
    client carries the link built from the key's configuration, the key as
    its devtools name (and as its name under client awareness), and the
    mode of the context: [ssrMode] on a server, a fetch delay of 100 on a
    client.  There are as many clients as entries. *)
Theorem registry_binds_each_key reparse cacheRestore na c payload s :
  NoDup (keys na) ->
  plugin reparse cacheRestore na c payload = Returned s ->
  length (heap s) = length (clients na) /\
  forall i k cfg, clients na !! i = Some (k, cfg) ->
    registry s !! k = Some i /\
    exists cl, heap s !! i = Some cl /\
      client_link cl = Link.link c cfg /\
      devtools_name cl = k /\
      client_name cl = (if clientAwareness na then Some k else None) /\
      ssrMode cl = process_server c /\
      ssrForceFetchDelay cl = (if process_server c then None else Some 100%nat).
Proof.
  unfold plugin, keys. intros Hnd H.
  destruct (loop_heap _ _ _ _ _ _ _ H) as (_ & new & Hh & Hf).
  cbn in Hh. split; [rewrite Hh; symmetry; exact (Forall2_length _ _ _ Hf)|].
  intros i k cfg Hi. split.
  - destruct (loop_registry _ _ _ _ _ _ _ Hnd H) as [Hb _].
    exact (Hb i k (key_or_configured _ _ _ _ Hi) (keys_lookup _ _ _ _ Hi)).
  - destruct (Forall2_lookup_l _ _ _ _ _ Hf Hi) as (cl & Hcl & Hm).
    exists cl. rewrite Hh. split; [exact Hcl|]. cbn in Hm.
    destruct (_ !! cacheKey k) as [v|];
      [destruct (process_client c && truthy v); [destruct Hm as (data & extract & _ & _ & ->)|subst cl]
      |subst cl]; repeat split.
Qed.

Lemma registry_binds_each_key_witness :
  exists s,
    plugin Returned Samples.keepObjects Samples.two Server ∅ = Returned s /\
    registry s !! "other" = Some 1%nat /\
    exists cl, heap s !! 1%nat = Some cl /\ ssrMode cl = true /\
               devtools_name cl = "other".
Proof.
  eexists. split; [reflexivity|].
  destruct (registry_binds_each_key Returned Samples.keepObjects Samples.two Server ∅ _
              ltac:(apply (bool_decide_unpack _); vm_compute; exact I) eq_refl)
    as [_ Hk].
  destruct (Hk 1%nat "other" Samples.cfgStale eq_refl)
    as (Hr & cl & Hcl & _ & Hd & _ & Hs & _).
  split; [exact Hr|]. exists cl. auto.
Defined.

(** X16.  When a client is configured under the key ["default"], the loop
    assigns no alias at all, and the default client is the client of that
    key, built from its own configuration, wherever the key stands in the
    configuration. *)
Theorem configured_default_is_its_own_client reparse cacheRestore na c payload s i cfg :
  NoDup (keys na) ->
  clients na !! i = Some ("default", cfg) ->
  plugin reparse cacheRestore na c payload = Returned s ->
  assignments (events s) = [] /\
  defaultClient s = Some i /\
  exists cl, heap s !! i = Some cl /\ client_link cl = Link.link c cfg /\
             devtools_name cl = "default".
Proof.
  unfold plugin, keys, defaultClient. intros Hnd Hi H.
  pose proof (key_or_configured _ _ _ _ Hi) as Hk.
  assert (Hd : configuredDefault na = true) by (destruct Hk; [congruence|assumption]).
  split; [exact (loop_configured _ _ _ _ _ _ _ Hd H)|]. split.
  - destruct (loop_registry _ _ _ _ _ _ _ Hnd H) as [Hb _].
    exact (Hb i "default" Hk (keys_lookup _ _ _ _ Hi)).
  - destruct (loop_heap _ _ _ _ _ _ _ H) as (_ & new & Hh & Hf).
    destruct (Forall2_lookup_l _ _ _ _ _ Hf Hi) as (cl & Hcl & Hm).
    exists cl. rewrite Hh. split; [exact Hcl|]. cbn in Hm.
    destruct (_ !! cacheKey "default") as [v|];
      [destruct (process_client c && truthy v); [destruct Hm as (data & extract & _ & _ & ->)|subst cl]
      |subst cl]; split; reflexivity.
Qed.

Lemma configured_default_is_its_own_client_witness :
  exists s,
    plugin Returned Samples.keepObjects
      {| proxyCookies := true; clientAwareness := false;
         clients := [("main", Samples.cfg); ("default", Samples.cfgStale)] |}
      Client ∅ = Returned s /\
    assignments (events s) = [] /\
    defaultClient s = Some 1%nat.
Proof.
  eexists. split; [reflexivity|].
  destruct (configured_default_is_its_own_client Returned Samples.keepObjects
              {| proxyCookies := true; clientAwareness := false;
                 clients := [("main", Samples.cfg); ("default", Samples.cfgStale)] |}
              Client ∅ _ 1%nat Samples.cfgStale
              ltac:(apply (bool_decide_unpack _); vm_compute; exact I)
              eq_refl eq_refl) as (Ha & Hd & _).
  split; [exact Ha | exact Hd].
Defined.

(** The first turn on a configuration without a ["default"] sets the
    alias, and the later turns keep it set. *)
Lemma alias_set_after_loop reparse cacheRestore na c payload s :
  "default" ∉ keys na -> NoDup (keys na) -> clients na <> [] ->
  plugin reparse cacheRestore na c payload = Returned s ->
  is_Some (registry s !! "default").
Proof.
  unfold plugin, keys. intros Hn Hnd Hne.
  destruct (clients na) as [|[k0 cfg0] rest] eqn:Hcl; [congruence|].
  intros (s1 & Hit & Hl)%loop_cons. rewrite iteration_built in Hit.
  cbn in Hn, Hnd. apply NoDup_cons in Hnd as [Hk0 _].
  destruct (restore_frame _ _ _ _ _ _ _ Hit) as (Hg & _).
  destruct (built_first na c k0 cfg0 payload) as [Bg _].
  { unfold keys. rewrite Hcl. exact Hn. }
  { unfold keys. rewrite Hcl. reflexivity. }
  assert (Hkd : k0 <> "default").
  { intros ->. apply Hn, list_elem_of_here. }
  assert (Hd1 : registry s1 !! "default" = Some 0%nat).
  { rewrite Hg, Bg. apply lookup_insert_eq. }
  assert (Hk1 : registry s1 !! k0 = Some 0%nat).
  { rewrite Hg, Bg, lookup_insert_ne by congruence. apply lookup_insert_eq. }
  destruct (loop_alias reparse cacheRestore na c k0 rest s1 s) as (Ld & _); auto.
  - apply Forall_forall. intros [k cfg] Hin. cbn. split.
    + intros ->. apply Hk0. apply list_elem_of_fmap. exists (k0, cfg). auto.
    + intros ->. apply Hn, list_elem_of_further.
      apply list_elem_of_fmap. exists ("default", cfg). auto.
  - rewrite Hd1. eauto.
Qed.

(** X17.  Keys being distinct, the plugin hands out a default client
    exactly when at least one client is configured, be it under the key
    ["default"] or under any other. *)
Theorem default_client_exists_iff_configured reparse cacheRestore na c payload s :
  NoDup (keys na) ->
  plugin reparse cacheRestore na c payload = Returned s ->
  is_Some (defaultClient s) <-> clients na <> [].
Proof.
  intros Hnd H. unfold defaultClient. split.
  - intros Hs Hnil. unfold plugin in H. rewrite Hnil in H.
    injection H as <-. cbn in Hs. rewrite lookup_empty in Hs.
    apply is_Some_None in Hs. exact Hs.
  - intros Hne. destruct (decide ("default" ∈ keys na)) as [Hin|Hout].
    + unfold keys in Hin. apply list_elem_of_fmap in Hin as ([k cfg] & Hk & Hin).
      cbn in Hk. subst k. apply list_elem_of_lookup in Hin as [i Hi].
      destruct (loop_registry _ _ _ _ _ _ _ Hnd H) as [Hb _].
      rewrite (Hb i "default" (key_or_configured _ _ _ _ Hi) (keys_lookup _ _ _ _ Hi)).
      eauto.
    + exact (alias_set_after_loop _ _ _ _ _ _ Hout Hnd Hne H).
Qed.

Lemma default_client_exists_iff_configured_witness :
  exists s,
    plugin Returned Samples.keepObjects {| proxyCookies := true; clientAwareness := false; clients := [] |}
           Client ∅ = Returned s /\
    ~ is_Some (defaultClient s).
Proof.
  eexists. split; [reflexivity|].
  intros Hs.
  apply (proj1 (default_client_exists_iff_configured Returned Samples.keepObjects
                  {| proxyCookies := true; clientAwareness := false; clients := [] |}
                  Client ∅ _ (NoDup_nil_2) eq_refl) Hs).
  reflexivity.
Defined.

Lemma loop_ws_bound reparse cacheRestore na c rest : forall s s' k cfg url,
  NoDup rest.*1 ->
  (k, cfg) ∈ rest -> c = Client ->
  wsEndpoint cfg = Some url -> JS.truthy url = true ->
  loop reparse cacheRestore na c s rest = Returned s' ->
  apolloWsClients s' !! k = Some url.
Proof.
  induction rest as [|[key cfg0] rest IH]; intros s s' k cfg url Hnd Hin Hc He Ht.
  - apply not_elem_of_nil in Hin. contradiction.
  - intros (s1 & Hit & Hl)%loop_cons.
    cbn in Hnd. apply NoDup_cons in Hnd as [Hkey Hnd].
    apply elem_of_cons in Hin as [[= <- <-] | Hin].
    + destruct (turn _ _ _ _ _ _ _ _ Hit) as (_ & Hw & _).
      destruct (loop_ws _ _ _ _ _ _ _ Hl) as [_ Hkept].
      rewrite (Hkept k Hkey), Hw. unfold Link.wsLink.
      rewrite He, Hc, Ht. apply lookup_insert_eq.
    + exact (IH s1 s' k cfg url Hnd Hin Hc He Ht Hl).
Qed.

(** X18.  The subscription clients kept on the application: none on a
    server context; on a client context, keys being distinct, one for
    each configured key with a non-empty [wsEndpoint], under that key and
    for that endpoint, and no other. *)
Theorem subscription_clients_follow_configuration reparse cacheRestore na c payload s :
  plugin reparse cacheRestore na c payload = Returned s ->
  (c = Server -> apolloWsClients s = ∅) /\
  (forall k url, apolloWsClients s !! k = Some url ->
     c = Client /\ exists cfg, (k, cfg) ∈ clients na /\
                               wsEndpoint cfg = Some url /\ JS.truthy url = true) /\
  (NoDup (keys na) -> c = Client ->
   forall k cfg url, (k, cfg) ∈ clients na ->
     wsEndpoint cfg = Some url -> JS.truthy url = true ->
     apolloWsClients s !! k = Some url).
Proof.
  unfold plugin, keys. intros H.
  destruct (loop_ws _ _ _ _ _ _ _ H) as [Hfrom _].
  assert (Hall : forall k url, apolloWsClients s !! k = Some url ->
            c = Client /\ exists cfg, (k, cfg) ∈ clients na /\
                                      wsEndpoint cfg = Some url /\ JS.truthy url = true).
  { intros k url Hk. destruct (Hfrom k url Hk) as [H0|H1]; [|exact H1].
    cbn in H0. rewrite lookup_empty in H0. discriminate. }
  split; [|split; [exact Hall|]].
  - intros Hc. apply map_empty. intros k.
    destruct (apolloWsClients s !! k) as [url|] eqn:E; [|reflexivity].
    destruct (Hall k url E) as [Hcl _]. congruence.
  - intros Hnd Hc k cfg url Hin He Ht.
    exact (loop_ws_bound _ _ _ _ _ _ _ _ _ _ Hnd Hin Hc He Ht H).
Qed.

Lemma subscription_clients_follow_configuration_witness :
  exists s,
    plugin Returned Samples.keepObjects Samples.two Server ∅ = Returned s /\
    apolloWsClients s = ∅.
Proof.
  eexists. split; [reflexivity|].
  exact (proj1 (subscription_clients_follow_configuration Returned Samples.keepObjects Samples.two
                  Server ∅ _ eq_refl) eq_refl).
Defined.

End RegistryShape.

(** ** The payload, from the server's caches to the client's *)

Module PayloadFlow.
Import Plugin PluginFacts LoopShape RegistryShape.

(** X19.  On a server context the plugin is always built, whatever the
    payload holds and whatever the deserializer would do: it restores no
    cache, leaves every cache empty and the payload as it found it. *)
Theorem server_build_never_restores reparse cacheRestore na payload :
  exists s,
    plugin reparse cacheRestore na Server payload = Returned s /\
    payload_data s = payload /\
    restorations (events s) = [] /\
    Forall (fun cl => client_cache cl = JObject []) (heap s).
Proof.
  unfold plugin.
  destruct (loop_returns_on_server reparse cacheRestore na Server (clients na) (init payload) eq_refl)
    as [s H].
  exists s. split; [exact H|].
  destruct (loop_heap _ _ _ _ _ _ _ H) as (Hp & new & Hh & Hf).
  split; [exact Hp|]. split.
  - destruct (restorations (events s)) as [|k l] eqn:E; [reflexivity|].
    destruct (loop_restorations _ _ _ _ _ _ _ k H) as [Hold | (_ & Hc & _)].
    + rewrite E. apply list_elem_of_here.
    + cbn in Hold. apply not_elem_of_nil in Hold. contradiction.
    + discriminate.
  - rewrite Hh. cbn [init heap app]. clear Hh H.
    induction Hf as [|[k cfg] cl rest new' Hm _ IH]; constructor; [|exact IH].
    cbn in Hm. destruct (_ !! cacheKey k); subst cl; reflexivity.
Qed.

(** X20.  On a client context the plugin leaves the payload as it found it
    and, for every entry of the configuration, the cache of that entry's
    client holds what [cache.restore] makes of the deserialized payload
    value under ["_apollo:<key>"] when that value is truthy, and is the
    empty cache it was made as when the value is missing or falsy. *)
Theorem payload_entry_restored_into_its_client reparse cacheRestore na payload s :
  plugin reparse cacheRestore na Client payload = Returned s ->
  payload_data s = payload /\
  forall i k cfg, clients na !! i = Some (k, cfg) ->
    exists cl, heap s !! i = Some cl /\
      match payload !! cacheKey k with
      | Some v =>
          if truthy v
          then exists data, reparse v = Returned data /\
                            cacheRestore data = Returned (client_cache cl)
          else client_cache cl = JObject []
      | None => client_cache cl = JObject []
      end.
Proof.
  unfold plugin. intros H.
  destruct (loop_heap _ _ _ _ _ _ _ H) as (Hp & new & Hh & Hf).
  split; [exact Hp|]. intros i k cfg Hi.
  destruct (Forall2_lookup_l _ _ _ _ _ Hf Hi) as (cl & Hcl & Hm).
  exists cl. rewrite Hh. split; [exact Hcl|]. cbn in Hm.
  destruct (payload !! cacheKey k) as [v|]; [|subst cl; reflexivity].
  destruct (truthy v); [|subst cl; reflexivity].
  destruct Hm as (data & extract & Hd & Hx & ->). exists data. auto.
Qed.

Lemma payload_entry_restored_into_its_client_witness :
  exists s cl,
    plugin Returned Samples.keepObjects Samples.two Client
           {[ "_apollo:other" :=
                JObject [("ROOT_QUERY", JNull); ("User:1", JObject [])] ]}
      = Returned s /\
    heap s !! 1%nat = Some cl /\
    client_cache cl = JObject [("User:1", JObject [])].
Proof.
  edestruct (payload_entry_restored_into_its_client Returned Samples.keepObjects
               Samples.two
               {[ "_apollo:other" :=
                    JObject [("ROOT_QUERY", JNull); ("User:1", JObject [])] ]})
    as [_ Hk]; [vm_compute; reflexivity|].
  destruct (Hk 1%nat "other" Samples.cfgStale eq_refl) as (cl & Hcl & Hm).
  eexists. exists cl. split; [vm_compute; reflexivity|]. split; [exact Hcl|].
  vm_compute in Hm. destruct Hm as (data & [= <-] & [= Hx]).
  symmetry. exact Hx.
Defined.

(** X21.  Nothing catches the deserializer: on a client context, a truthy
    payload entry of a configured key on which it throws makes the build
    of the plugin throw. *)
Theorem deserializer_failure_aborts_build reparse cacheRestore na payload k cfg v e :
  (k, cfg) ∈ clients na ->
  payload !! cacheKey k = Some v ->
  truthy v = true ->
  reparse v = Threw e ->
  exists e', plugin reparse cacheRestore na Client payload = Threw e'.
Proof.
  intros Hin Hv Ht Hr. unfold plugin.
  exact (loop_throws reparse cacheRestore na Client (clients na) (init payload) k cfg v e
           eq_refl Hin Hv Ht Hr).
Qed.

Lemma deserializer_failure_aborts_build_witness :
  exists e',
    plugin (fun _ => Threw "circular") Samples.keepObjects Samples.two Client
           {[ "_apollo:main" := JObject [] ]} = Threw e'.
Proof.
  apply (deserializer_failure_aborts_build (fun _ => Threw "circular") Samples.keepObjects Samples.two
           {[ "_apollo:main" := JObject [] ]} "main" Samples.cfg (JObject []) "circular").
  - apply list_elem_of_here.
  - reflexivity.
  - reflexivity.
  - reflexivity.
Defined.

(** What one callback does when ['app:rendered'] fires. *)
Local Abbreviation fireStep :=
  (fun (s : State) (cb : RenderedCallback) =>
     match heap s !! cb_client cb with
     | Some cl =>
         {| registry := registry s; heap := heap s;
            payload_data :=
              <[ cb_cacheKey cb := client_cache cl ]> (payload_data s);
            rendered_hooks := rendered_hooks s;
            apolloWsClients := apolloWsClients s;
            events := events s |}
     | None => s
     end).

Lemma fire_frame hooks : forall s,
  registry (foldl fireStep s hooks) = registry s /\
  heap (foldl fireStep s hooks) = heap s /\
  (forall K, K ∉ cb_cacheKey <$> hooks ->
     payload_data (foldl fireStep s hooks) !! K = payload_data s !! K).
Proof.
  induction hooks as [|cb hooks IH]; intros s; [cbn; auto|].
  cbn [foldl]. destruct (IH (fireStep s cb)) as (Ig & Ih & Ip).
  assert (Hs : registry (fireStep s cb) = registry s /\ heap (fireStep s cb) = heap s).
  { cbn. destruct (heap s !! cb_client cb); auto. }
  destruct Hs as [Hg Hh]. split; [congruence|]. split; [congruence|].
  intros K HK. cbn in HK. apply not_elem_of_cons in HK as [Hne HK].
  rewrite (Ip K HK). cbn. destruct (heap s !! cb_client cb); [|reflexivity].
  cbn. apply lookup_insert_ne. congruence.
Qed.

Lemma fire_writes hooks : forall s cb cl,
  NoDup (cb_cacheKey <$> hooks) ->
  cb ∈ hooks -> heap s !! cb_client cb = Some cl ->
  payload_data (foldl fireStep s hooks) !! cb_cacheKey cb = Some (client_cache cl).
Proof.
  induction hooks as [|cb0 hooks IH]; intros s cb cl Hnd Hin Hcl.
  - apply not_elem_of_nil in Hin. contradiction.
  - cbn in Hnd. apply NoDup_cons in Hnd as [Hfresh Hnd]. cbn [foldl].
    apply elem_of_cons in Hin as [-> | Hin].
    + destruct (fire_frame hooks (fireStep s cb0)) as (_ & _ & Hp).
      rewrite (Hp _ Hfresh). cbn. rewrite Hcl. cbn. apply lookup_insert_eq.
    + apply (IH _ cb cl Hnd Hin).
      destruct (fire_frame [cb0] s) as (_ & Hh & _). cbn in Hh. rewrite Hh. exact Hcl.
Qed.

Global Instance cacheKey_inj : Inj (=) (=) cacheKey.
Proof. intros a b H. unfold cacheKey in H. exact (String.app_inj "_apollo:" _ _ H). Qed.

Lemma registered_keys (ks : list string) :
  cb_cacheKey <$> imap (fun i k => {| cb_cacheKey := cacheKey k; cb_client := i |}) ks
  = cacheKey <$> ks.
Proof.
  apply list_eq. intros i.
  rewrite !list_lookup_fmap, list_lookup_imap. destruct (ks !! i); reflexivity.
Qed.

(** X22.  When the host fires ['app:rendered'] on a state that holds the
    callbacks the plugin registered (keys being distinct), the payload
    receives under ["_apollo:<key>"] what the cache of that key's client
    holds at that moment; every other payload entry, the registry and the
    clients stay as they are. *)
Theorem rendering_writes_every_cache reparse cacheRestore na c payload s0 s :
  NoDup (keys na) ->
  plugin reparse cacheRestore na c payload = Returned s0 ->
  rendered_hooks s = rendered_hooks s0 ->
  registry (fireRendered s) = registry s /\
  heap (fireRendered s) = heap s /\
  (forall i k cl, keys na !! i = Some k -> heap s !! i = Some cl ->
     payload_data (fireRendered s) !! cacheKey k = Some (client_cache cl)) /\
  (forall K, (forall k, k ∈ keys na -> K <> cacheKey k) ->
     payload_data (fireRendered s) !! K = payload_data s !! K).
Proof.
  intros Hnd H Hs. unfold plugin in H.
  destruct (loop_hooks _ _ _ _ _ _ _ H) as (_ & _ & Hr). cbn in Hr.
  unfold fireRendered. rewrite Hs, Hr. fold (keys na).
  destruct (fire_frame
              (imap (fun i k => {| cb_cacheKey := cacheKey k; cb_client := i |}) (keys na)) s)
    as (Fg & Fh & Fp).
  split; [exact Fg|]. split; [exact Fh|]. split.
  - intros i k cl Hk Hcl.
    apply (fire_writes _ s {| cb_cacheKey := cacheKey k; cb_client := i |} cl).
    + rewrite registered_keys. apply NoDup_fmap_2; [apply _|exact Hnd].
    + apply list_elem_of_lookup. exists i. rewrite list_lookup_imap, Hk. reflexivity.
    + exact Hcl.
  - intros K HK. apply Fp. rewrite registered_keys.
    intros (k & -> & Hk)%list_elem_of_fmap. exact (HK k Hk eq_refl).
Qed.

Lemma rendering_writes_every_cache_witness :
  exists s0,
    plugin Returned Samples.keepObjects Samples.two Server ∅ = Returned s0 /\
    payload_data (fireRendered s0) !! "_apollo:other" = Some (JObject []).
Proof.
  eexists. split; [reflexivity|].
  destruct (rendering_writes_every_cache Returned Samples.keepObjects Samples.two Server ∅ _ _
              ltac:(apply (bool_decide_unpack _); vm_compute; exact I) eq_refl eq_refl)
    as (_ & _ & Hw & _).
  exact (Hw 1%nat "other" _ eq_refl eq_refl).
Defined.

(** The loop runs to its end when the two library steps return on every
    truthy payload entry it comes to. *)
Lemma loop_returns_when reparse cacheRestore na c rest : forall s,
  (forall k cfg v, (k, cfg) ∈ rest ->
     payload_data s !! cacheKey k = Some v -> truthy v = true ->
     exists data extract,
       reparse v = Returned data /\ cacheRestore data = Returned extract) ->
  exists s', loop reparse cacheRestore na c s rest = Returned s'.
Proof.
  induction rest as [|[key cfg] rest IH]; intros s Hok; [eauto|].
  assert (Hit : exists s1, iteration reparse cacheRestore na c s (key, cfg) = Returned s1).
  { rewrite iteration_built. unfold restore.
    destruct (built_frame na c key cfg s) as (Bp & _). rewrite Bp.
    destruct (payload_data s !! cacheKey key) as [v|] eqn:Hv; [|eauto].
    destruct (process_client c && truthy v) eqn:Hc; [|eauto].
    apply andb_true_iff in Hc as [_ Ht].
    destruct (Hok key cfg v (list_elem_of_here _ _) Hv Ht) as (data & extract & -> & ->).
    eauto. }
  destruct Hit as [s1 Hit]. cbn [loop]. rewrite Hit.
  destruct (turn _ _ _ _ _ _ _ _ Hit) as (Hp & _).
  apply IH. intros k cfg' v Hin. rewrite Hp. intros Hv Ht.
  exact (Hok k cfg' v (list_elem_of_further _ _ _ Hin) Hv Ht).
Qed.

(** X23.  The round trip of the cache transfer.  Take the state of a
    server-side build at the end of rendering, its caches filled with
    whatever the queries put there, each extract an object (hence truthy)
    that the library's own pair of steps, serialize-and-parse then
    [cache.restore], gives back as it was.  Let ['app:rendered'] fire and
    the payload travel.  The client-side build on that payload succeeds and
    its caches hold, client by client, what the server's held. *)
Theorem cache_round_trip reparse0 restore0 reparse cacheRestore na payload s0 s :
  NoDup (keys na) ->
  plugin reparse0 restore0 na Server payload = Returned s0 ->
  rendered_hooks s = rendered_hooks s0 ->
  length (heap s) = length (heap s0) ->
  Forall (fun cl =>
            truthy (client_cache cl) = true /\
            exists data, reparse (client_cache cl) = Returned data /\
                         cacheRestore data = Returned (client_cache cl))
         (heap s) ->
  exists s',
    plugin reparse cacheRestore na Client (payload_data (fireRendered s)) = Returned s' /\
    client_cache <$> heap s' = client_cache <$> heap s.
Proof.
  intros Hnd H0 Hr Hlen Hgood.
  pose proof H0 as H0'. unfold plugin in H0'.
  destruct (loop_hooks _ _ _ _ _ _ _ H0') as (_ & Hl0 & Hr0). cbn in Hl0, Hr0.
  assert (Hpay : forall i k cfg cl0,
            clients na !! i = Some (k, cfg) -> heap s !! i = Some cl0 ->
            payload_data (fireRendered s) !! cacheKey k = Some (client_cache cl0)).
  { intros i k cfg cl0 Hi Hcl0. unfold fireRendered. rewrite Hr, Hr0.
    apply (fire_writes _ s {| cb_cacheKey := cacheKey k; cb_client := i |} cl0).
    - rewrite registered_keys. apply NoDup_fmap_2; [apply _|exact Hnd].
    - apply list_elem_of_lookup. exists i.
      rewrite list_lookup_imap, (keys_lookup _ _ _ _ Hi). reflexivity.
    - exact Hcl0. }
  assert (Hsrv : forall i e, clients na !! i = Some e -> exists cl0, heap s !! i = Some cl0).
  { intros i e Hi. apply lookup_lt_is_Some_2. rewrite Hlen, Hl0.
    exact (lookup_lt_Some _ _ _ Hi). }
  destruct (loop_returns_when reparse cacheRestore na Client (clients na)
              (init (payload_data (fireRendered s)))) as [s' H'].
  { intros k cfg v Hin Hv _. cbn in Hv.
    apply list_elem_of_lookup in Hin as [i Hi].
    destruct (Hsrv i _ Hi) as [cl0 Hcl0].
    rewrite (Hpay i k cfg cl0 Hi Hcl0) in Hv. injection Hv as <-.
    destruct (proj1 (Forall_forall _ _) Hgood cl0) as (_ & data & Hd & Hx).
    { apply list_elem_of_lookup. eauto. }
    eauto. }
  exists s'. split; [exact H'|].
  destruct (loop_heap _ _ _ _ _ _ _ H') as (_ & new & Hh & Hf). cbn in Hh.
  apply list_eq. intros i. rewrite !list_lookup_fmap.
  destruct (clients na !! i) as [[k cfg]|] eqn:Hi.
  - destruct (Forall2_lookup_l _ _ _ _ _ Hf Hi) as (cl & Hcl & Hm).
    destruct (Hsrv i _ Hi) as [cl0 Hcl0].
    rewrite Hh, Hcl, Hcl0. cbn. f_equal.
    cbn in Hm. rewrite (Hpay i k cfg cl0 Hi Hcl0) in Hm.
    destruct (proj1 (Forall_forall _ _) Hgood cl0) as (Ht & data0 & Hd0 & Hx0).
    { apply list_elem_of_lookup. eauto. }
    rewrite Ht in Hm. destruct Hm as (data & extract & Hd & Hx & ->).
    cbn. congruence.
  - apply lookup_ge_None in Hi.
    rewrite (proj2 (lookup_ge_None (heap s') i)), (proj2 (lookup_ge_None (heap s) i)).
    + reflexivity.
    + rewrite Hlen, Hl0. exact Hi.
    + rewrite Hh, <- (Forall2_length _ _ _ Hf). exact Hi.
Qed.

Lemma cache_round_trip_witness :
  let srv :=
    {| registry := {[ "main" := 0%nat ]};
       heap := [ setCache (JObject [("ROOT_QUERY", JObject [("me", JString "ann")])])
                   (newClient (Samples.na true) Server "main" Samples.cfg) ];
       payload_data := ∅;
       rendered_hooks := [ {| cb_cacheKey := "_apollo:main"; cb_client := 0 |} ];
       apolloWsClients := ∅; events := [] |} in
  exists s',
    plugin Returned Samples.keepObjects (Samples.na true) Client
           (payload_data (fireRendered srv))
      = Returned s' /\
    client_cache <$> heap s' = client_cache <$> heap srv.
Proof.
  intros srv.
  refine (cache_round_trip Returned Samples.keepObjects Returned Samples.keepObjects
            (Samples.na true) ∅ _ srv _ _ _ _ _).
  - apply (bool_decide_unpack _). vm_compute. exact I.
  - vm_compute. reflexivity.
  - reflexivity.
  - reflexivity.
  - repeat constructor. eexists. split; reflexivity.
Defined.

End PayloadFlow.
